(** * auditoff: the rule engine of the Lua vulnerability scanner

    A shallow embedding of [src/main.py].  The scanner parses a Lua file with
    the [luaparser] package, walks the syntax tree once per rule and appends
    one dictionary per match to the module-level list [vulnerabilities].

    - The syntax tree is an inductive type with one constructor per
      [luaparser.astnodes] class that a rule inspects.
    - A Python node object is a tree node together with its [_parent]
      reference, which is what [get_line_number] follows.
    - The module-level list is threaded explicitly: a rule is a function from
      the list before to an outcome and the list after.  An uncaught Python
      exception is an outcome of its own, and leaves the list as it was when
      the exception was raised.
    - Parsing, the coloured printout and the JSON file are outside the
      embedding: a rule takes the parsed tree, and the report of a scan is
      the list that would be printed and written. *)

From Stdlib Require Import ZArith List String Ascii Bool Arith Lia.
From Stdlib Require Import DecimalString.
Import ListNotations.

Set Warnings "-register-all".
Local Open Scope string_scope.
Local Open Scope list_scope.

(** ** Constants *)

Definition INT_MAX : Z := 2147483647%Z.
Definition INT_MIN : Z := (-2147483648)%Z.

(** ** Syntax tree *)

(** Modelled from the spec: the node classes of [luaparser.astnodes], which is
    a package the program imports and is not part of the repository.  Field
    names and field order are those of the classes' constructors.  [line] is
    the node's own [line] attribute, [None] when it is unset.  [PyNone] is
    Python's [None] standing in a field (an [If] without [else] has
    [orelse = None]); it is an instance of no node class.  A [Function]
    carries its [body], always a [Block], as the block's line and statement
    list.  [LocalAssign] is a subclass of [Assign]: it has a constructor of
    its own because the overflow rule tests for it, and every test for
    [Assign] accepts both.  [Other] stands for every remaining node class
    (loops, tables, strings, the other operators, ...): no rule inspects
    them, they have no [id] attribute, and only their child nodes matter.
    Number literals are integers here. *)
Inductive node : Type :=
| PyNone
| Chunk (line : option Z) (body : node)
| Block (line : option Z) (body : list node)
| Assign (line : option Z) (targets values : list node)
| LocalAssign (line : option Z) (targets values : list node)
| If (line : option Z) (test body orelse : node)
| ElseIf (line : option Z) (test body orelse : node)
| Return (line : option Z) (values : list node)
| Call (line : option Z) (func : node) (args : list node)
| Function (line : option Z) (name : node) (args : list node)
           (body_line : option Z) (body : list node)
| Number (line : option Z) (n : Z)
| Name (line : option Z) (id : string)
| Index (line : option Z) (idx value : node)
| AddOp (line : option Z) (left right : node)
| SubOp (line : option Z) (left right : node)
| MultOp (line : option Z) (left right : node)
| Other (cls : string) (line : option Z) (fields : list node).

(** [node.line]; [None] has no such attribute. *)
Definition line_of (n : node) : option Z :=
  match n with
  | PyNone => None
  | Chunk l _ | Block l _ | Assign l _ _ | LocalAssign l _ _
  | If l _ _ _ | ElseIf l _ _ _ | Return l _ | Call l _ _
  | Function l _ _ _ _ | Number l _ | Name l _ | Index l _ _
  | AddOp l _ _ | SubOp l _ _ | MultOp l _ _ | Other _ l _ => l
  end.

(** A node object: the node and its [_parent] reference.  [parent = None]
    covers both an object without the attribute and one whose [_parent] is
    [None]: [get_line_number] answers [None] in either case. *)
Inductive pyobj : Type :=
| Obj (self : node) (parent : option pyobj).

Definition self (o : pyobj) : node := let (n, _) := o in n.
Definition parent (o : pyobj) : option pyobj := let (_, p) := o in p.

(** Modelled from the spec: every node carries a reference to its enclosing
    node (section 3), so the object found in a field of [o] has [o] as its
    [_parent]. *)
Definition child (o : pyobj) (c : node) : pyobj := Obj c (Some o).

(** [node.body] of a [Function] object. *)
Definition body_of (o : pyobj) (body_line : option Z) (body : list node) : pyobj :=
  child o (Block body_line body).

(** Modelled from the spec: [luaparser.ast.walk], a pre-order traversal that
    yields the root and every descendant exactly once, fields in declaration
    order; values that are not nodes ([None]) are skipped. *)
Fixpoint walk_from (up : option pyobj) (n : node) {struct n} : list pyobj :=
  let me := Obj n up in
  match n with
  | PyNone => []
  | Chunk _ b => me :: walk_from (Some me) b
  | Block _ ss => me :: flat_map (walk_from (Some me)) ss
  | Assign _ ts vs | LocalAssign _ ts vs =>
      me :: flat_map (walk_from (Some me)) ts ++ flat_map (walk_from (Some me)) vs
  | If _ t b e | ElseIf _ t b e =>
      me :: walk_from (Some me) t ++ walk_from (Some me) b ++ walk_from (Some me) e
  | Return _ vs => me :: flat_map (walk_from (Some me)) vs
  | Call _ f xs => me :: walk_from (Some me) f ++ flat_map (walk_from (Some me)) xs
  | Function _ nm xs bl bs =>
      let blk := Obj (Block bl bs) (Some me) in
      me :: walk_from (Some me) nm ++ flat_map (walk_from (Some me)) xs
         ++ blk :: flat_map (walk_from (Some blk)) bs
  | Number _ _ | Name _ _ => [me]
  | Index _ i v => me :: walk_from (Some me) i ++ walk_from (Some me) v
  | AddOp _ l r | SubOp _ l r | MultOp _ l r =>
      me :: walk_from (Some me) l ++ walk_from (Some me) r
  | Other _ _ fs => me :: flat_map (walk_from (Some me)) fs
  end.

Definition walk (root : pyobj) : list pyobj := walk_from (parent root) (self root).

(** [ast.parse(code)]: the root object of the tree has no parent. *)
Definition parse (tree : node) : pyobj := Obj tree None.

(** ** Line resolution (src/main.py, 43-48) *)

Fixpoint get_line_number (node : pyobj) : option Z :=
  match node with
  | Obj n up =>
      match line_of n with
      | Some l => Some l
      | None =>
          match up with
          | Some p => get_line_number p
          | None => None
          end
      end
  end.

(** ** Findings and the collector (src/main.py, 15-24) *)

Record Finding : Type := mkFinding {
  name : string;
  description : string;
  pattern : string;
  severity : string;
  line : option Z
}.

Inductive exn : Type :=
| AttributeError (attr : string).

Inductive result (A : Type) : Type :=
| Ok (a : A)
| Raise (e : exn).
Arguments Ok {A} a.
Arguments Raise {A} e.

(** A computation over the global list [vulnerabilities]. *)
Definition M (A : Type) : Type := list Finding -> result A * list Finding.

Definition ret {A} (a : A) : M A := fun vs => (Ok a, vs).

Definition raise {A} (e : exn) : M A := fun vs => (Raise e, vs).

Definition bind {A B} (m : M A) (k : A -> M B) : M B :=
  fun vs =>
    match m vs with
    | (Ok a, vs') => k a vs'
    | (Raise e, vs') => (Raise e, vs')
    end.

Declare Scope py_scope.
Delimit Scope py_scope with py.
Notation "x <- c1 ;; c2" := (bind c1 (fun x => c2))
  (at level 61, c1 at next level, right associativity) : py_scope.
Notation "c1 ;; c2" := (bind c1 (fun _ => c2))
  (at level 61, right associativity) : py_scope.
Local Open Scope py_scope.

(** [for x in xs: body(x)] *)
Fixpoint for_each {A} (xs : list A) (body : A -> M unit) : M unit :=
  match xs with
  | [] => ret tt
  | x :: rest => body x ;; for_each rest body
  end.

(** [if c: m] *)
Definition when (c : bool) (m : M unit) : M unit := if c then m else ret tt.

Definition add_vulnerability (name description pattern severity : string)
           (line : option Z) : M unit :=
  fun vulnerabilities =>
    (Ok tt, vulnerabilities ++ [mkFinding name description pattern severity line]).

(** [expr.id]: only a [Name] has the attribute. *)
Definition attr_id (n : node) : M string :=
  match n with
  | Name _ id => ret id
  | _ => raise (AttributeError "id")
  end.

(** ** Strings *)

(** [str.lower] on the ASCII letters, which is all a Lua identifier has. *)
Definition lower_ascii (c : ascii) : ascii :=
  let k := nat_of_ascii c in
  if (65 <=? k)%nat && (k <=? 90)%nat then ascii_of_nat (k + 32) else c.

Fixpoint lower (s : string) : string :=
  match s with
  | EmptyString => EmptyString
  | String c rest => String (lower_ascii c) (lower rest)
  end.

(** [s in words] for a list of strings. *)
Definition in_words (s : string) (words : list string) : bool :=
  existsb (String.eqb s) words.

(** ** Rule: Missing Return (src/main.py, 26-39) *)

Definition is_Return (n : node) : bool :=
  match n with Return _ _ => true | _ => false end.

Definition analyze_return_visit (node : pyobj) : M unit :=
  match self node with
  | Function _ _ _ _ body =>
      let has_return := existsb is_Return body in
      when (negb has_return)
        (add_vulnerability "Missing Return Statement"
           "A function is missing a return statement."
           "missing_return" "low" (get_line_number node))
  | _ => ret tt
  end.

Definition analyze_return (code : node) : M unit :=
  let tree := parse code in
  for_each (walk tree) analyze_return_visit.

(** ** Rule: Integer Overflow/Underflow (src/main.py, 40-116) *)

Definition is_potential_overflow (number : Z) : bool :=
  (number >=? INT_MAX)%Z || (number <=? INT_MIN)%Z.

(** [isinstance(v, astnodes.Number) and is_potential_overflow(v.n)] *)
Definition overflowing_number (v : node) : bool :=
  match v with
  | Number _ n => is_potential_overflow n
  | _ => false
  end.

Definition overflow_finding (description : string) (l : option Z) : Finding :=
  mkFinding "Integer Overflow/Underflow" description "overflow_underflow" "high" l.

Definition analyze_overflow_in_node (node : pyobj) : M unit :=
  match self node with
  | AddOp _ l r | SubOp _ l r | MultOp _ l r =>
      let left_operand := child node l in
      let right_operand := child node r in
      when (overflowing_number l)
        (add_vulnerability "Integer Overflow/Underflow"
           "Potential integer overflow/underflow detected with left operand."
           "overflow_underflow" "high" (get_line_number left_operand)) ;;
      when (overflowing_number r)
        (add_vulnerability "Integer Overflow/Underflow"
           "Potential integer overflow/underflow detected with right operand."
           "overflow_underflow" "high" (get_line_number right_operand))
  | _ => ret tt
  end ;;
  match self node with
  | LocalAssign _ _ values =>
      for_each values (fun value =>
        when (overflowing_number value)
          (add_vulnerability "Integer Overflow/Underflow"
             "Potential integer overflow/underflow detected with local variable assignment."
             "overflow_underflow" "high" (get_line_number (child node value))))
  | _ => ret tt
  end ;;
  match self node with
  | Function _ _ args _ _ =>
      for_each args (fun arg =>
        when (overflowing_number arg)
          (add_vulnerability "Integer Overflow/Underflow"
             "Potential integer overflow/underflow detected with function argument."
             "overflow_underflow" "high" (get_line_number (child node arg))))
  | _ => ret tt
  end.

(** Lines 101-103: the body of a Function node is walked once more. *)
Definition analyze_function_body (node : pyobj) : M unit :=
  match self node with
  | Function _ _ _ bl bs =>
      for_each (walk (body_of node bl bs)) analyze_overflow_in_node
  | _ => ret tt
  end.

(** Lines 105-116: the values of the direct Return statements of a function
    named another_example. *)
Definition analyze_another_example (node : pyobj) : M unit :=
  match self node with
  | Function _ nm _ bl bs =>
      fname <- attr_id nm ;;
      when (fname =? "another_example")
        (for_each bs (fun n =>
           match n with
           | Return _ values =>
               for_each values (fun ret_val =>
                 when (overflowing_number ret_val)
                   (add_vulnerability "Integer Overflow/Underflow"
                      ("Potential integer overflow/underflow detected in return statement of function '"
                         ++ fname ++ "'.")
                      "overflow_underflow" "high"
                      (get_line_number (child (child (body_of node bl bs) n) ret_val))))
           | _ => ret tt
           end))
  | _ => ret tt
  end.

(** The body of the loop over [ast.walk(tree)] (lines 99-116). *)
Definition analyze_overflow_and_return_visit (node : pyobj) : M unit :=
  analyze_overflow_in_node node ;;
  analyze_function_body node ;;
  analyze_another_example node.

Definition analyze_overflow_and_return (code : node) : M unit :=
  let tree := parse code in
  for_each (walk tree) analyze_overflow_and_return_visit.

(** ** Rule: Private Key Exposure (src/main.py, 118-132) *)

Definition private_key_words : list string :=
  ["privatekey"; "private_key"; "secretkey"; "secret_key"; "keypair";
   "key_pair"; "api_key"].

(** The test of line 123 is [isinstance(node, astnodes.Assign)], which is
    true of a [LocalAssign] too. *)
Definition check_private_key_exposure_visit (node : pyobj) : M unit :=
  match self node with
  | Assign _ targets _ | LocalAssign _ targets _ =>
      for_each targets (fun target =>
        match target with
        | Name _ id =>
            when (in_words (lower id) private_key_words)
              (add_vulnerability "Private Key Exposure"
                 ("Potential exposure of private key in variable '" ++ id ++ "'.")
                 "private_key_exposure" "high" (get_line_number node))
        | _ => ret tt
        end)
  | _ => ret tt
  end.

Definition check_private_key_exposure (code : node) : M unit :=
  let tree := parse code in
  for_each (walk tree) check_private_key_exposure_visit.

(** ** Rule: Reentrancy (src/main.py, 134-156) *)

Definition is_external_call (n : node) : bool :=
  match n with
  | Call _ (Name _ id) _ => id =? "external_call"
  | _ => false
  end.

(** [isinstance(node, astnodes.Assign)]: true of an [Assign] and of a
    [LocalAssign], which is a subclass of it. *)
Definition has_state_change (n : node) : bool :=
  match n with
  | Assign _ _ _ | LocalAssign _ _ _ => true
  | _ => false
  end.

(** [enumerate(body)] *)
Definition enumerate {A} (body : list A) : list (nat * A) :=
  combine (seq 0 (List.length body)) body.

Definition analyze_reentrancy_visit (node : pyobj) : M unit :=
  match self node with
  | Function _ _ _ _ body =>
      for_each (enumerate body) (fun '(i, n) =>
        when (is_external_call n)
          (for_each (skipn (i + 1) body) (fun subsequent_node =>
             when (has_state_change subsequent_node)
               (add_vulnerability "Reentrancy"
                  "A function calls an external contract before updating its state."
                  "external_call" "high" (get_line_number node)))))
  | _ => ret tt
  end.

Definition analyze_reentrancy (code : node) : M unit :=
  let tree := parse code in
  for_each (walk tree) analyze_reentrancy_visit.

(** ** Rule: Floating Pragma (src/main.py, 158-171) *)

Definition deprecated_functions : list string := ["setfenv"; "getfenv"].

Definition analyze_floating_pragma_visit (node : pyobj) : M unit :=
  match self node with
  | Call _ (Name _ id) _ =>
      when (in_words id deprecated_functions)
        (add_vulnerability "Floating Pragma"
           ("Floating pragma issue detected with function '" ++ id ++ "'.")
           "floating_pragma" "low" (get_line_number node))
  | _ => ret tt
  end.

Definition analyze_floating_pragma (code : node) : M unit :=
  let tree := parse code in
  for_each (walk tree) analyze_floating_pragma_visit.

(** ** Rule: Denial of Service (src/main.py, 173-185) *)

Definition analyze_denial_of_service_visit (node : pyobj) : M unit :=
  match self node with
  | Call _ (Name _ id) _ =>
      when (id =? "perform_expensive_operation")
        (add_vulnerability "Denial of Service"
           ("Potential Denial of Service vulnerability detected with function '"
              ++ id ++ "'.")
           "denial_of_service" "medium" (get_line_number node))
  | _ => ret tt
  end.

Definition analyze_denial_of_service (code : node) : M unit :=
  let tree := parse code in
  for_each (walk tree) analyze_denial_of_service_visit.

(** ** Rule: Unchecked External Calls (src/main.py, 187-203) *)

(** The rule has its own local [is_external_call], another function than the
    one of the Reentrancy rule. *)
Module Unchecked.

Definition is_external_call (n : node) : bool :=
  match n with
  | Call _ (Index _ _ (Name _ _)) _ => true
  | _ => false
  end.

End Unchecked.

Definition analyze_unchecked_external_calls_visit (node : pyobj) : M unit :=
  match self node with
  | Function _ nm _ bl bs =>
      for_each bs (fun n =>
        when (Unchecked.is_external_call n)
          (fname <- attr_id nm ;;
           add_vulnerability "Unchecked External Calls"
             ("Unchecked external call detected in function '" ++ fname ++ "'.")
             "unchecked_external_call" "medium"
             (get_line_number (child (body_of node bl bs) n))))
  | _ => ret tt
  end.

Definition analyze_unchecked_external_calls (code : node) : M unit :=
  let tree := parse code in
  for_each (walk tree) analyze_unchecked_external_calls_visit.

(** ** Rule: Greedy/Suicidal Functions (src/main.py, 205-233) *)

Definition transfer_functions : list string :=
  ["transfer"; "transfer_funds"; "transferfunds"; "send"; "pay"].

Definition is_fund_transfer (n : node) : bool :=
  match n with
  | Call _ (Name _ id) _ => in_words (lower id) transfer_functions
  | _ => false
  end.

Definition has_conditional (n : node) : bool :=
  match n with
  | If _ _ _ _ | ElseIf _ _ _ _ => true
  | _ => false
  end.

(** The two flags after the loop over [node.body.body]. *)
Definition greedy_flags (body : list node) : bool * bool :=
  fold_left
    (fun '(has_transfer, has_condition) n =>
       (if is_fund_transfer n then true else has_transfer,
        if has_conditional n then true else has_condition))
    body (false, false).

Definition analyze_greedy_suicidal_functions_visit (node : pyobj) : M unit :=
  match self node with
  | Function _ nm _ _ body =>
      let '(has_transfer, has_condition) := greedy_flags body in
      when (has_transfer && negb has_condition)
        (fname <- attr_id nm ;;
         add_vulnerability "Greedy/Suicidal Functions"
           ("Potential greedy/suicidal contract detected in function '" ++ fname ++ "'.")
           "greedy_suicidal_function" "high" (get_line_number node))
  | _ => ret tt
  end.

Definition analyze_greedy_suicidal_functions (code : node) : M unit :=
  let tree := parse code in
  for_each (walk tree) analyze_greedy_suicidal_functions_visit.

(** ** The scan (src/main.py, 265-277) *)

(** The eight rules, in the order [main] calls them. *)
Definition scan (code : node) : M unit :=
  analyze_return code ;;
  analyze_overflow_and_return code ;;
  analyze_reentrancy code ;;
  check_private_key_exposure code ;;
  analyze_floating_pragma code ;;
  analyze_denial_of_service code ;;
  analyze_unchecked_external_calls code ;;
  analyze_greedy_suicidal_functions code.

(** The list that [print_vulnerabilities] prints and [save_report] dumps:
    the whole of [vulnerabilities], never cleared. *)
Definition report : M (list Finding) := fun vulnerabilities => (Ok vulnerabilities, vulnerabilities).

(** One turn of the loop of [main] on a file that exists and parses: the
    scan, then the report. *)
Definition scan_and_report (code : node) : M (list Finding) :=
  scan code ;; report.

(** The loop of [main] over the files entered, in order; it yields the
    report written at each turn.  An exception ends the process. *)
Fixpoint main (files : list node) : M (list (list Finding)) :=
  match files with
  | [] => ret []
  | code :: rest =>
      r <- scan_and_report code ;;
      rs <- main rest ;;
      ret (r :: rs)
  end.

(** Modelled from the spec: [drain], which the program does not have (the list
    is never cleared); it hands back the findings and empties the collector. *)
Definition drain : M (list Finding) := fun vulnerabilities => (Ok vulnerabilities, []).

(** ** The printout (src/main.py, 8-13 and 235-245) *)

Definition ESC : string := String (ascii_of_nat 27) "".
Definition LF : string := String (ascii_of_nat 10) "".

(** The dictionary [COLORS], in the order it is written. *)
Definition COLORS : list (string * string) :=
  [("red", (ESC ++ "[91m")%string); ("yellow", (ESC ++ "[93m")%string);
   ("cyan", (ESC ++ "[96m")%string); ("reset", (ESC ++ "[0m")%string)].

(** [COLORS[key]]; the program only reads the four keys above, so the
    KeyError of a missing key cannot arise and is not modelled. *)
Definition color_of (key : string) : string :=
  match find (fun kv => fst kv =? key) COLORS with
  | Some kv => snd kv
  | None => ""
  end.

(** [str(line)] for a line that is an integer or [None]. *)
Definition str_line (l : option Z) : string :=
  match l with
  | Some z => NilZero.string_of_int (Z.to_int z)
  | None => "None"
  end.

(** The colour chosen for one finding (lines 237-243). *)
Definition vuln_color (vuln : Finding) : string :=
  let color := color_of "reset" in
  if severity vuln =? "high" then color_of "red"
  else if severity vuln =? "medium" then color_of "yellow"
  else if severity vuln =? "low" then color_of "cyan"
  else color.

(** The text of one [print] call (line 245), with the newline [print] adds. *)
Definition vuln_text (vuln : Finding) : string :=
  (vuln_color vuln ++ "Name: " ++ name vuln ++ LF
     ++ "Description: " ++ description vuln ++ LF
     ++ "Pattern: " ++ pattern vuln ++ LF
     ++ "Severity: " ++ severity vuln ++ LF
     ++ "Line: " ++ str_line (line vuln) ++ color_of "reset" ++ LF ++ LF)%string.

(** What [print_vulnerabilities] writes to the terminal, one text per finding
    of the global list. *)
Definition print_vulnerabilities (vulnerabilities : list Finding) : list string :=
  map vuln_text vulnerabilities.

(** ** The loop of [main] with its prompt (src/main.py, 251-278) *)

(** What is found at a path: nothing ([os.path.isfile] is false), a file that
    [ast.parse] rejects, or a file and its tree.  A file that exists and
    cannot be read is not modelled. *)
Inductive file : Type :=
| Missing
| Unparsable
| Parsed (tree : node).

(** What a turn of the loop shows: the message for a missing file, or the
    printout and the list written to report.json. *)
Inductive event : Type :=
| FileNotFound
| Report (printed : list string) (saved : list Finding).

(** How the loop ends: the user typed exit, [input] found no more input
    (EOFError), the parser rejected a file, or a rule raised. *)
Inductive ending : Type :=
| Exited
| EndOfInput
| ParseFailed
| Crashed (e : exn).

Section Interactive.

(** [str.strip] and the file system are taken as given. *)
Variable strip : string -> string.
Variable files : string -> file.

(** The loop over the lines typed at the prompt, from the list
    [vulnerabilities]: the events shown, the ending and the list at the
    end. *)
Fixpoint main_interactive (inputs : list string) (vulnerabilities : list Finding)
  : list event * ending * list Finding :=
  match inputs with
  | [] => ([], EndOfInput, vulnerabilities)
  | typed :: rest =>
      let file_path := strip typed in
      if lower file_path =? "exit" then ([], Exited, vulnerabilities)
      else
        match files file_path with
        | Missing =>
            let '(events, e, vs) := main_interactive rest vulnerabilities in
            (FileNotFound :: events, e, vs)
        | Unparsable => ([], ParseFailed, vulnerabilities)
        | Parsed code =>
            match scan code vulnerabilities with
            | (Ok _, vs) =>
                let '(events, e, vs') := main_interactive rest vs in
                (Report (print_vulnerabilities vs) vs :: events, e, vs')
            | (Raise e, vs) => ([], Crashed e, vs)
            end
        end
  end.

End Interactive.

(** * Vocabulary of the statements *)

(** ** Effects on the list *)

(** What a computation appends when it starts from the empty list, and how it
    ends. *)
Definition emitted {A} (m : M A) : list Finding := snd (m []).

Definition outcome {A} (m : M A) : result A := fst (m []).

(** A computation that only appends to the list and never reads it. *)
Definition appends {A} (m : M A) : Prop :=
  forall vs, m vs = (outcome m, vs ++ emitted m).

(** A computation that appends and always ends normally. *)
Definition completes (m : M unit) : Prop := appends m /\ outcome m = Ok tt.

(** A computation that appends, and appends only findings with property [Q]. *)
Definition emits_only {A} (Q : Finding -> Prop) (m : M A) : Prop :=
  appends m /\ Forall Q (emitted m).

Definition named (s : string) (f : Finding) : Prop := name f = s.

(** ** Parent chains *)

(** The object, its parent, its parent's parent, ... up to the object that has
    no parent. *)
Fixpoint parent_chain (o : pyobj) : list pyobj :=
  match o with
  | Obj _ up =>
      o :: match up with
           | Some p => parent_chain p
           | None => []
           end
  end.

(** The first concrete line number in a list of objects. *)
Fixpoint first_line (os : list pyobj) : option Z :=
  match os with
  | [] => None
  | o :: rest =>
      match line_of (self o) with
      | Some l => Some l
      | None => first_line rest
      end
  end.

(** ** The findings of the rules *)

Definition missing_return_finding (l : option Z) : Finding :=
  mkFinding "Missing Return Statement" "A function is missing a return statement."
            "missing_return" "low" l.

Definition private_key_finding (id : string) (l : option Z) : Finding :=
  mkFinding "Private Key Exposure"
            ("Potential exposure of private key in variable '" ++ id ++ "'.")
            "private_key_exposure" "high" l.

(** What the rule appends for one target of an assignment [p]. *)
Definition private_key_target (p : pyobj) (target : node) : list Finding :=
  emitted
    (match target with
     | Name _ id =>
         when (in_words (lower id) private_key_words)
           (add_vulnerability "Private Key Exposure"
              ("Potential exposure of private key in variable '" ++ id ++ "'.")
              "private_key_exposure" "high" (get_line_number p))
     | _ => ret tt
     end).

Definition reentrancy_finding (l : option Z) : Finding :=
  mkFinding "Reentrancy"
            "A function calls an external contract before updating its state."
            "external_call" "high" l.

Definition greedy_finding (fname : string) (l : option Z) : Finding :=
  mkFinding "Greedy/Suicidal Functions"
            ("Potential greedy/suicidal contract detected in function '" ++ fname ++ "'.")
            "greedy_suicidal_function" "high" l.

(** What the rule appends for the value [v] found in a field of [p], with the
    description of that field. *)
Definition overflow_literal (p : pyobj) (desc : string) (v : node) : list Finding :=
  emitted
    (when (overflowing_number v)
       (add_vulnerability "Integer Overflow/Underflow" desc "overflow_underflow" "high"
          (get_line_number (child p v)))).

Definition floating_pragma_finding (id : string) (l : option Z) : Finding :=
  mkFinding "Floating Pragma"
            ("Floating pragma issue detected with function '" ++ id ++ "'.")
            "floating_pragma" "low" l.

Definition denial_of_service_finding (id : string) (l : option Z) : Finding :=
  mkFinding "Denial of Service"
            ("Potential Denial of Service vulnerability detected with function '"
               ++ id ++ "'.")
            "denial_of_service" "medium" l.

Definition unchecked_finding (fname : string) (l : option Z) : Finding :=
  mkFinding "Unchecked External Calls"
            ("Unchecked external call detected in function '" ++ fname ++ "'.")
            "unchecked_external_call" "medium" l.

(** What the rule appends for the statement [n] of the body of the function
    [p] named [fname]. *)
Definition unchecked_statement (p : pyobj) (bl : option Z) (body : list node)
           (fname : string) (n : node) : list Finding :=
  if Unchecked.is_external_call n
  then [unchecked_finding fname (get_line_number (child (body_of p bl body) n))]
  else [].

(** What the check appends for the value [v] of the Return statement [s] of
    the function [p] named [fname]. *)
Definition returned_literal (p : pyobj) (bl : option Z) (body : list node)
           (fname : string) (s v : node) : list Finding :=
  if overflowing_number v
  then [overflow_finding
          ("Potential integer overflow/underflow detected in return statement of function '"
             ++ fname ++ "'.")
          (get_line_number (child (child (body_of p bl body) s) v))]
  else [].

(** ** Statement lists *)

(** The number of elements of a list that pass a test. *)
Definition count {A} (P : A -> bool) (xs : list A) : nat := List.length (filter P xs).

(** The pairs of a statement list made of an [external_call] call and an
    assignment (Assign or LocalAssign) somewhere after it, counted from the
    front. *)
Fixpoint call_then_assign (body : list node) : nat :=
  match body with
  | [] => 0
  | n :: rest =>
      (if is_external_call n then count has_state_change rest else 0)
      + call_then_assign rest
  end.

(** Some call to [external_call] has an assignment (Assign or LocalAssign)
    after it in the list. *)
Definition call_before_assign (body : list node) : Prop :=
  exists pre c mid a post,
    body = pre ++ c :: mid ++ a :: post /\
    is_external_call c = true /\ has_state_change a = true.

(** The condition under which the rule reports a function. *)
Definition greedy_body (body : list node) : bool :=
  existsb is_fund_transfer body && negb (existsb has_conditional body).

(** ** The loop with a drain *)

(** Modelled from the spec: the loop of [main] with the collector drained at
    the end of every turn, the report of a turn being what [drain] hands back. *)
Fixpoint main_draining (files : list node) : M (list (list Finding)) :=
  match files with
  | [] => ret []
  | code :: rest =>
      scan code ;;
      r <- drain ;;
      rs <- main_draining rest ;;
      ret (r :: rs)
  end.

(** ** Sessions *)

(** The lists reported turn after turn when the turns append [outs], one
    after the other, to [vs]. *)
Fixpoint running (vs : list Finding) (outs : list (list Finding))
  : list (list Finding) :=
  match outs with
  | [] => []
  | out :: rest => (vs ++ out) :: running (vs ++ out) rest
  end.

(** The lists written to report.json during a session. *)
Fixpoint saved_lists (events : list event) : list (list Finding) :=
  match events with
  | [] => []
  | FileNotFound :: rest => saved_lists rest
  | Report _ saved :: rest => saved :: saved_lists rest
  end.

(** Each list of [rs] extends the one before it, the first one extends [a]. *)
Fixpoint grows (a : list Finding) (rs : list (list Finding)) : Prop :=
  match rs with
  | [] => True
  | r :: rest => (exists added, r = a ++ added) /\ grows r rest
  end.

(** ** Violation instances, rule by rule *)

(** A node on which [node.name.id] can be read: a Function is named by a Name
    node. *)
Definition named_function (n : node) : bool :=
  match n with
  | Function _ (Name _ _) _ _ _ => true
  | Function _ _ _ _ _ => false
  | _ => true
  end.

(** Every Function node of the tree is named by a Name node, so that no rule
    raises on [node.name.id]. *)
Definition functions_named (code : node) : bool :=
  forallb (fun p => named_function (self p)) (walk (parse code)).

(** Missing Return: a Function whose direct statements hold no Return. *)
Definition lacks_direct_return (n : node) : bool :=
  match n with
  | Function _ _ _ _ body => forallb (fun s => negb (is_Return s)) body
  | _ => false
  end.

(** Greedy/Suicidal: a Function whose direct statements hold a transfer call
    and no If or ElseIf. *)
Definition greedy_function (n : node) : bool :=
  match n with
  | Function _ _ _ _ body =>
      existsb is_fund_transfer body && forallb (fun s => negb (has_conditional s)) body
  | _ => false
  end.

(** Private Key Exposure: the targets of an Assign or of a LocalAssign that
    are Names of the list, lower-cased. *)
Definition private_key_name (target : node) : bool :=
  match target with
  | Name _ id =>
      in_words (lower id)
        ["privatekey"; "private_key"; "secretkey"; "secret_key"; "keypair";
         "key_pair"; "api_key"]
  | _ => false
  end.

Definition private_key_targets (n : node) : nat :=
  match n with
  | Assign _ targets _ | LocalAssign _ targets _ => count private_key_name targets
  | _ => 0
  end.

(** Reentrancy: the pairs of positions [i < j] of the direct statement list
    with a call of external_call at [i] and an Assign or a LocalAssign at
    [j]. *)
Definition reentrancy_pairs (body : list node) : list (nat * nat) :=
  filter
    (fun '(i, j) =>
       (i <? j)%nat && is_external_call (nth i body PyNone)
       && has_state_change (nth j body PyNone))
    (list_prod (seq 0 (List.length body)) (seq 0 (List.length body))).

Definition reentrancy_instances (n : node) : nat :=
  match n with
  | Function _ _ _ _ body => List.length (reentrancy_pairs body)
  | _ => 0
  end.

(** Floating Pragma: a call of setfenv or getfenv. *)
Definition deprecated_call (n : node) : bool :=
  match n with
  | Call _ (Name _ id) _ => (id =? "setfenv") || (id =? "getfenv")
  | _ => false
  end.

(** Denial of Service: a call of perform_expensive_operation. *)
Definition expensive_call (n : node) : bool :=
  match n with
  | Call _ (Name _ id) _ => id =? "perform_expensive_operation"
  | _ => false
  end.

(** Unchecked External Call: the direct statements of a Function that are
    calls through an Index of a Name. *)
Definition unchecked_calls (n : node) : nat :=
  match n with
  | Function _ _ _ _ body => count Unchecked.is_external_call body
  | _ => 0
  end.

Definition bool_to_nat (b : bool) : nat := if b then 1 else 0.

(** Integer Overflow/Underflow: the out-of-range Number literals among the
    operands of an Add/Sub/Mult, the values of a LocalAssign, the parameters
    of a Function. *)
Definition overflow_literals (n : node) : nat :=
  match n with
  | AddOp _ a b | SubOp _ a b | MultOp _ a b =>
      bool_to_nat (overflowing_number a) + bool_to_nat (overflowing_number b)
  | LocalAssign _ _ values => count overflowing_number values
  | Function _ _ args _ _ => count overflowing_number args
  | _ => 0
  end.

(** ... and the out-of-range Number literals among the values of the direct
    Return statements of a Function named another_example. *)
Definition returned_literals (n : node) : nat :=
  match n with
  | Function _ (Name _ id) _ _ body =>
      if id =? "another_example"
      then list_sum (map (fun s => match s with
                                   | Return _ values => count overflowing_number values
                                   | _ => 0
                                   end) body)
      else 0
  | _ => 0
  end.

(** ** Depth *)

(** The nodes of a tree in walk order, each with the number of Function
    bodies it lies in, counted from [d]. *)
Fixpoint walk_depth (d : nat) (n : node) {struct n} : list (nat * node) :=
  match n with
  | PyNone => []
  | Chunk _ b => (d, n) :: walk_depth d b
  | Block _ ss => (d, n) :: flat_map (walk_depth d) ss
  | Assign _ ts vs | LocalAssign _ ts vs =>
      (d, n) :: flat_map (walk_depth d) ts ++ flat_map (walk_depth d) vs
  | If _ t b e | ElseIf _ t b e =>
      (d, n) :: walk_depth d t ++ walk_depth d b ++ walk_depth d e
  | Return _ vs => (d, n) :: flat_map (walk_depth d) vs
  | Call _ f xs => (d, n) :: walk_depth d f ++ flat_map (walk_depth d) xs
  | Function _ nm xs bl bs =>
      (d, n) :: walk_depth d nm ++ flat_map (walk_depth d) xs
             ++ (S d, Block bl bs) :: flat_map (walk_depth (S d)) bs
  | Number _ _ | Name _ _ => [(d, n)]
  | Index _ i v => (d, n) :: walk_depth d i ++ walk_depth d v
  | AddOp _ l r | SubOp _ l r | MultOp _ l r =>
      (d, n) :: walk_depth d l ++ walk_depth d r
  | Other _ _ fs => (d, n) :: flat_map (walk_depth d) fs
  end.

(** The sum of a measure over a list. *)
Definition total {A} (f : A -> nat) (xs : list A) : nat := list_sum (map f xs).

(** The sum of a measure over the nodes of a tree. *)
Definition sum_nodes (g : node -> nat) (n : node) : nat :=
  total (fun dm => g (snd dm)) (walk_depth 0 n).

(** The measure summed over the body of a Function node. *)
Definition body_sum (w : node -> nat) (n : node) : nat :=
  match n with
  | Function _ _ _ bl bs => sum_nodes w (Block bl bs)
  | _ => 0
  end.

(** * Reasoning about the collector *)

Section Appends.

Lemma appends_ret {A} (a : A) : appends (ret a).
Proof. intros vs. unfold ret, outcome, emitted. simpl. now rewrite app_nil_r. Qed.

Lemma appends_raise {A} (e : exn) : appends (@raise A e).
Proof. intros vs. unfold raise, outcome, emitted. simpl. now rewrite app_nil_r. Qed.

Lemma appends_add (nm d p s : string) (l : option Z) :
  appends (add_vulnerability nm d p s l).
Proof. intros vs. reflexivity. Qed.

(** How a sequence ends and what it appends, from its two parts. *)
Lemma bind_ok {A B} (m : M A) (k : A -> M B) (a : A) :
  appends m -> appends (k a) -> outcome m = Ok a ->
  outcome (bind m k) = outcome (k a) /\
  emitted (bind m k) = emitted m ++ emitted (k a).
Proof.
  intros Hm Hk Ho. unfold outcome at 1, emitted at 1, bind.
  rewrite (Hm []), Ho. simpl. now rewrite (Hk (emitted m)).
Qed.

Lemma bind_raise {A B} (m : M A) (k : A -> M B) (e : exn) :
  appends m -> outcome m = Raise e ->
  outcome (bind m k) = Raise e /\ emitted (bind m k) = emitted m.
Proof.
  intros Hm Ho. unfold outcome at 1, emitted at 1, bind.
  rewrite (Hm []), Ho. simpl. auto.
Qed.

Lemma appends_bind {A B} (m : M A) (k : A -> M B) :
  appends m -> (forall a, appends (k a)) -> appends (bind m k).
Proof.
  intros Hm Hk vs.
  destruct (outcome m) as [a|e] eqn:Ho.
  - destruct (bind_ok m k a Hm (Hk a) Ho) as [-> ->].
    unfold bind. rewrite (Hm vs), Ho, (Hk a). now rewrite app_assoc.
  - destruct (bind_raise m k e Hm Ho) as [-> ->].
    unfold bind. now rewrite (Hm vs), Ho.
Qed.

Lemma appends_when (c : bool) (m : M unit) : appends m -> appends (when c m).
Proof. destruct c; simpl; auto using appends_ret. Qed.

Lemma appends_for_each {A} (xs : list A) (body : A -> M unit) :
  (forall x, appends (body x)) -> appends (for_each xs body).
Proof.
  intros H. induction xs as [|x xs IH]; simpl.
  - apply appends_ret.
  - apply appends_bind; auto.
Qed.

Lemma appends_attr_id (n : node) : appends (attr_id n).
Proof. destruct n; simpl; auto using appends_ret, appends_raise. Qed.

(** A loop whose body never raises runs to its end, and appends what each
    turn appends, in order. *)
Lemma for_each_ok {A} (xs : list A) (body : A -> M unit) :
  (forall x, appends (body x)) ->
  (forall x, In x xs -> outcome (body x) = Ok tt) ->
  outcome (for_each xs body) = Ok tt /\
  emitted (for_each xs body) = flat_map (fun x => emitted (body x)) xs.
Proof.
  intros HA. induction xs as [|x xs IH]; intros H.
  - split; reflexivity.
  - destruct IH as [IO IE]; [intros y Hy; apply H; now right|].
    simpl for_each.
    pose proof (bind_ok (body x) (fun _ => for_each xs body) tt
                  (HA x) (appends_for_each _ _ HA) (H x (in_eq _ _))) as [O E].
    rewrite O, E, IO, IE. auto.
Qed.

(** A loop stops at the first turn that raises: it ends with that
    exception, having appended what the turns up to there append. *)
Lemma for_each_raises {A} (pre : list A) (x : A) (post : list A)
      (body : A -> M unit) (e : exn) :
  (forall y, appends (body y)) ->
  (forall y, In y pre -> outcome (body y) = Ok tt) ->
  outcome (body x) = Raise e ->
  outcome (for_each (pre ++ x :: post) body) = Raise e /\
  emitted (for_each (pre ++ x :: post) body)
    = flat_map (fun y => emitted (body y)) pre ++ emitted (body x).
Proof.
  intros HA. induction pre as [|y pre IH]; intros Hpre Ox; simpl.
  - pose proof (bind_raise (body x) (fun _ => for_each post body) e (HA x) Ox)
      as [O E].
    now rewrite O, E.
  - destruct IH as [IO IE]; auto; [intros z Hz; apply Hpre; now right|].
    pose proof (bind_ok (body y) (fun _ => for_each (pre ++ x :: post) body) tt
                  (HA y) (appends_for_each _ _ HA) (Hpre y (in_eq _ _))) as [O E].
    rewrite O, E, IO, IE. now rewrite app_assoc.
Qed.

End Appends.

Section Completes.

Lemma completes_ret : completes (ret tt).
Proof. split; [apply appends_ret | reflexivity]. Qed.

Lemma completes_add (nm d p s : string) (l : option Z) :
  completes (add_vulnerability nm d p s l).
Proof. split; [apply appends_add | reflexivity]. Qed.

Lemma completes_when (c : bool) (m : M unit) : completes m -> completes (when c m).
Proof. destruct c; simpl; auto using completes_ret. Qed.

Lemma completes_bind (m : M unit) (k : unit -> M unit) :
  completes m -> (forall u, completes (k u)) -> completes (bind m k).
Proof.
  intros [Hm Om] Hk. split.
  - apply appends_bind; [assumption | intro u; apply Hk].
  - destruct (bind_ok m k tt Hm (proj1 (Hk tt)) Om) as [-> _]. apply Hk.
Qed.

Lemma completes_for_each {A} (xs : list A) (body : A -> M unit) :
  (forall x, completes (body x)) -> completes (for_each xs body).
Proof.
  intros H. induction xs as [|x xs IH]; simpl.
  - apply completes_ret.
  - apply completes_bind; auto.
Qed.

Lemma emitted_ret {A} (a : A) : emitted (ret a) = [].
Proof. reflexivity. Qed.

Lemma emitted_add (nm d p s : string) (l : option Z) :
  emitted (add_vulnerability nm d p s l) = [mkFinding nm d p s l].
Proof. reflexivity. Qed.

Lemma emitted_when (c : bool) (m : M unit) :
  emitted (when c m) = if c then emitted m else [].
Proof. now destruct c. Qed.

Lemma emitted_seq (m k : M unit) :
  completes m -> appends k -> emitted (m ;; k) = emitted m ++ emitted k.
Proof.
  intros [Hm Om] Hk. now destruct (bind_ok m (fun _ => k) tt Hm Hk Om).
Qed.

Lemma outcome_seq {A} (m : M unit) (k : M A) :
  completes m -> appends k -> outcome (m ;; k) = outcome k.
Proof.
  intros [Hm Om] Hk. now destruct (bind_ok m (fun _ => k) tt Hm Hk Om).
Qed.

Lemma emitted_for_each {A} (xs : list A) (body : A -> M unit) :
  (forall x, completes (body x)) ->
  emitted (for_each xs body) = flat_map (fun x => emitted (body x)) xs.
Proof.
  intros H. apply for_each_ok; intros; apply H.
Qed.

(** The whole effect of a computation that completes. *)
Lemma completes_run (m : M unit) (vs : list Finding) :
  completes m -> m vs = (Ok tt, vs ++ emitted m).
Proof. intros [Hm Om]. now rewrite (Hm vs), Om. Qed.

End Completes.

Ltac appender :=
  repeat first
    [ apply appends_ret | apply appends_raise | apply appends_add
    | apply appends_attr_id
    | apply appends_when
    | apply appends_for_each; intro
    | apply appends_bind; [|intro]
    | match goal with
      | |- appends (match ?x with _ => _ end) => destruct x
      end ].

Ltac completer :=
  repeat first
    [ apply completes_ret | apply completes_add
    | apply completes_when
    | apply completes_for_each; intro
    | apply completes_bind; [|intro]
    | match goal with
      | |- completes (match ?x with _ => _ end) => destruct x
      end ].

(** ** The rules append; those that read no function name complete *)

Section Visits.

Variable node : pyobj.

Lemma analyze_return_visit_completes : completes (analyze_return_visit node).
Proof. unfold analyze_return_visit. completer. Qed.

Lemma analyze_overflow_in_node_completes : completes (analyze_overflow_in_node node).
Proof. unfold analyze_overflow_in_node. completer. Qed.

Lemma check_private_key_exposure_visit_completes :
  completes (check_private_key_exposure_visit node).
Proof. unfold check_private_key_exposure_visit. completer. Qed.

Lemma analyze_reentrancy_visit_completes : completes (analyze_reentrancy_visit node).
Proof. unfold analyze_reentrancy_visit. completer. Qed.

Lemma analyze_floating_pragma_visit_completes :
  completes (analyze_floating_pragma_visit node).
Proof. unfold analyze_floating_pragma_visit. completer. Qed.

Lemma analyze_denial_of_service_visit_completes :
  completes (analyze_denial_of_service_visit node).
Proof. unfold analyze_denial_of_service_visit. completer. Qed.

Lemma analyze_function_body_completes : completes (analyze_function_body node).
Proof.
  unfold analyze_function_body.
  destruct (self node); try apply completes_ret.
  apply completes_for_each. intro q. unfold analyze_overflow_in_node. completer.
Qed.

Lemma analyze_another_example_appends : appends (analyze_another_example node).
Proof. unfold analyze_another_example. appender. Qed.

Lemma analyze_overflow_and_return_visit_appends :
  appends (analyze_overflow_and_return_visit node).
Proof.
  unfold analyze_overflow_and_return_visit.
  apply appends_bind; [apply analyze_overflow_in_node_completes|intro].
  apply appends_bind; [apply analyze_function_body_completes|intro].
  apply analyze_another_example_appends.
Qed.

Lemma analyze_unchecked_external_calls_visit_appends :
  appends (analyze_unchecked_external_calls_visit node).
Proof. unfold analyze_unchecked_external_calls_visit. appender. Qed.

Lemma analyze_greedy_suicidal_functions_visit_appends :
  appends (analyze_greedy_suicidal_functions_visit node).
Proof. unfold analyze_greedy_suicidal_functions_visit. appender. Qed.

End Visits.

(** * Line resolution *)

Lemma get_line_number_unfold (o : pyobj) :
  get_line_number o =
    match line_of (self o) with
    | Some l => Some l
    | None =>
        match parent o with
        | Some p => get_line_number p
        | None => None
        end
    end.
Proof. destruct o as [n up]. reflexivity. Qed.

Lemma get_line_number_chain :
  forall o, get_line_number o = first_line (parent_chain o).
Proof.
  fix IH 1. intros [n [p|]]; simpl.
  - rewrite (IH p). reflexivity.
  - reflexivity.
Qed.

Lemma first_line_none (os : list pyobj) :
  first_line os = None <-> Forall (fun a => line_of (self a) = None) os.
Proof.
  induction os as [|o os IH]; simpl.
  - split; auto.
  - destruct (line_of (self o)) eqn:E.
    + split; [discriminate|]. intros H. inversion H; congruence.
    + rewrite IH. split; intros H.
      * now constructor.
      * now inversion H.
Qed.

Lemma first_line_some (os : list pyobj) (l : Z) :
  first_line os = Some l <->
  exists pre a post,
    os = pre ++ a :: post /\
    Forall (fun b => line_of (self b) = None) pre /\
    line_of (self a) = Some l.
Proof.
  induction os as [|o os IH]; simpl.
  - split; [discriminate|]. intros (pre & a & post & E & _).
    now destruct pre.
  - destruct (line_of (self o)) eqn:E.
    + split.
      * intros [= ->]. now exists [], o, os.
      * intros (pre & a & post & Eq & Hpre & Ha).
        destruct pre as [|b pre]; simpl in Eq; injection Eq as -> ->.
        -- congruence.
        -- inversion Hpre; congruence.
    + rewrite IH. split.
      * intros (pre & a & post & -> & Hpre & Ha).
        exists (o :: pre), a, post. now repeat split; [constructor|].
      * intros (pre & a & post & Eq & Hpre & Ha).
        destruct pre as [|b pre]; simpl in Eq; injection Eq as -> ->.
        -- congruence.
        -- exists pre, a, post. inversion Hpre; auto.
Qed.

(** * The walk *)

(** Induction on a tree, with the property available for every child. *)
Section NodeInduction.

Variable P : node -> Prop.
Hypothesis HPyNone : P PyNone.
Hypothesis HChunk : forall l b, P b -> P (Chunk l b).
Hypothesis HBlock : forall l ss, Forall P ss -> P (Block l ss).
Hypothesis HAssign : forall l ts vs, Forall P ts -> Forall P vs -> P (Assign l ts vs).
Hypothesis HLocalAssign :
  forall l ts vs, Forall P ts -> Forall P vs -> P (LocalAssign l ts vs).
Hypothesis HIf : forall l t b e, P t -> P b -> P e -> P (If l t b e).
Hypothesis HElseIf : forall l t b e, P t -> P b -> P e -> P (ElseIf l t b e).
Hypothesis HReturn : forall l vs, Forall P vs -> P (Return l vs).
Hypothesis HCall : forall l f xs, P f -> Forall P xs -> P (Call l f xs).
Hypothesis HFunction :
  forall l nm xs bl bs, P nm -> Forall P xs -> Forall P bs -> P (Function l nm xs bl bs).
Hypothesis HNumber : forall l n, P (Number l n).
Hypothesis HName : forall l id, P (Name l id).
Hypothesis HIndex : forall l i v, P i -> P v -> P (Index l i v).
Hypothesis HAddOp : forall l a b, P a -> P b -> P (AddOp l a b).
Hypothesis HSubOp : forall l a b, P a -> P b -> P (SubOp l a b).
Hypothesis HMultOp : forall l a b, P a -> P b -> P (MultOp l a b).
Hypothesis HOther : forall c l fs, Forall P fs -> P (Other c l fs).

Fixpoint node_rect' (n : node) : P n :=
  let all := fix all (xs : list node) : Forall P xs :=
               match xs with
               | [] => Forall_nil P
               | x :: rest => Forall_cons x (node_rect' x) (all rest)
               end in
  match n with
  | PyNone => HPyNone
  | Chunk l b => HChunk l b (node_rect' b)
  | Block l ss => HBlock l ss (all ss)
  | Assign l ts vs => HAssign l ts vs (all ts) (all vs)
  | LocalAssign l ts vs => HLocalAssign l ts vs (all ts) (all vs)
  | If l t b e => HIf l t b e (node_rect' t) (node_rect' b) (node_rect' e)
  | ElseIf l t b e => HElseIf l t b e (node_rect' t) (node_rect' b) (node_rect' e)
  | Return l vs => HReturn l vs (all vs)
  | Call l f xs => HCall l f xs (node_rect' f) (all xs)
  | Function l nm xs bl bs => HFunction l nm xs bl bs (node_rect' nm) (all xs) (all bs)
  | Number l n => HNumber l n
  | Name l id => HName l id
  | Index l i v => HIndex l i v (node_rect' i) (node_rect' v)
  | AddOp l a b => HAddOp l a b (node_rect' a) (node_rect' b)
  | SubOp l a b => HSubOp l a b (node_rect' a) (node_rect' b)
  | MultOp l a b => HMultOp l a b (node_rect' a) (node_rect' b)
  | Other c l fs => HOther c l fs (all fs)
  end.

End NodeInduction.

Lemma parent_chain_step (c : node) (me p : pyobj) :
  (exists pre, parent_chain p = pre ++ parent_chain (Obj c (Some me))) ->
  exists pre, parent_chain p = pre ++ parent_chain me.
Proof.
  intros [pre E]. exists (pre ++ [Obj c (Some me)]).
  rewrite E. cbn [parent_chain]. now rewrite <- app_assoc.
Qed.

Ltac split_walk :=
  repeat match goal with
    | H : In _ (_ ++ _) |- _ => apply in_app_or in H; destruct H as [H|H]
    | H : In _ (flat_map _ _) |- _ =>
        apply in_flat_map in H; destruct H as (? & ? & H)
    | H : In _ (_ :: _) |- _ => destruct H as [<-|H]
    | H : In _ [] |- _ => contradiction
    end.

(** The parent chain of an object met by the walk leads to the object the
    walk started from, and on through its own chain. *)
Lemma walk_from_parent_chain (n : node) :
  forall up p,
    In p (walk_from up n) ->
    exists pre, parent_chain p = pre ++ parent_chain (Obj n up).
Proof.
  induction n using node_rect'; intros up p Hin;
    cbn [walk_from] in Hin;
    repeat match goal with H : Forall _ _ |- _ => rewrite Forall_forall in H end;
    split_walk;
    try (exists []; reflexivity);
    try (eapply parent_chain_step; eauto; fail).
  - exists [Obj (Block bl bs) (Some (Obj (Function l n xs bl bs) up))].
    reflexivity.
  - apply (parent_chain_step (Block bl bs)).
    eapply parent_chain_step. eauto.
Qed.

(** C8.  The parent chain of a node of the tree ends at the root, which has no
    parent.  Line resolution returns the node's own line number when it has
    one and otherwise the resolution of its parent; hence it is the line of
    the nearest object on the parent chain (the node first) that carries a
    concrete line number, and it is unknown ([None]) exactly when no object on
    the chain up to the root carries one. *)
Theorem get_line_number_walks_up (o : pyobj) :
  (forall code, In o (walk (parse code)) ->
                exists pre, parent_chain o = pre ++ [parse code]) /\
  (forall l, line_of (self o) = Some l -> get_line_number o = Some l) /\
  (line_of (self o) = None ->
     forall p, parent o = Some p -> get_line_number o = get_line_number p) /\
  (line_of (self o) = None -> parent o = None -> get_line_number o = None) /\
  (forall l,
     get_line_number o = Some l <->
     exists pre a post,
       parent_chain o = pre ++ a :: post /\
       Forall (fun b => line_of (self b) = None) pre /\
       line_of (self a) = Some l) /\
  (get_line_number o = None <->
     Forall (fun a => line_of (self a) = None) (parent_chain o)).
Proof.
  split; [intros code Hin; apply (walk_from_parent_chain code None o Hin)|].
  repeat split.
  - intros l H. now rewrite get_line_number_unfold, H.
  - intros H p Hp. now rewrite get_line_number_unfold, H, Hp.
  - intros H Hp. now rewrite get_line_number_unfold, H, Hp.
  - rewrite get_line_number_chain. apply first_line_some.
  - rewrite get_line_number_chain. apply first_line_some.
  - rewrite get_line_number_chain. apply first_line_none.
  - rewrite get_line_number_chain. apply first_line_none.
Qed.

Lemma get_line_number_walks_up_witness :
  get_line_number
    (Obj (Name None "x")
       (Some (Obj (Assign None [Name None "x"] [])
          (Some (Obj (Block (Some 7%Z) []) None))))) = Some 7%Z.
Proof.
  set (blk := Obj (Block (Some 7%Z) []) None).
  set (asg := Obj (Assign None [Name None "x"] []) (Some blk)).
  set (nm := Obj (Name None "x") (Some asg)).
  destruct (get_line_number_walks_up nm) as (_ & _ & Hn & _).
  destruct (get_line_number_walks_up asg) as (_ & _ & Ha & _).
  destruct (get_line_number_walks_up blk) as (_ & Hb & _).
  rewrite (Hn eq_refl asg eq_refl), (Ha eq_refl blk eq_refl).
  apply Hb. reflexivity.
Defined.

(** A rule whose visit completes on every node appends, for the whole tree,
    what the visits append, in the order of the walk. *)
Lemma rule_completes (visit : pyobj -> M unit) (code : node) (vs : list Finding) :
  (forall p, completes (visit p)) ->
  for_each (walk (parse code)) visit vs
    = (Ok tt, vs ++ flat_map (fun p => emitted (visit p)) (walk (parse code))).
Proof.
  intros H. rewrite (completes_run _ vs (completes_for_each _ _ H)).
  now rewrite (emitted_for_each _ _ H).
Qed.

(** * Missing Return *)

Lemma existsb_is_Return (body : list node) :
  existsb is_Return body = true <-> exists l vs, In (Return l vs) body.
Proof.
  rewrite existsb_exists. split.
  - intros (n & Hin & Hn). destruct n; try discriminate. eauto.
  - intros (l & vs & Hin). exists (Return l vs). auto.
Qed.

Lemma analyze_return_visit_emitted (p : pyobj) :
  emitted (analyze_return_visit p) =
    match self p with
    | Function _ _ _ _ body =>
        if existsb is_Return body then [] else [missing_return_finding (get_line_number p)]
    | _ => []
    end.
Proof.
  unfold analyze_return_visit.
  destruct (self p); try reflexivity.
  rewrite emitted_when. now destruct (existsb is_Return body).
Qed.

(** C6.  The Missing Return rule appends, node by node in walk order, exactly
    one low-severity finding for every Function whose direct statement list
    holds no Return (an empty body included) and nothing for a Function whose
    direct statement list holds a Return, nor for any other node; a Return
    that sits only inside a nested block of the body is not seen. *)
Theorem analyze_return_direct_statements (code : node) (vs : list Finding) :
  exists per_node : pyobj -> list Finding,
    analyze_return code vs
      = (Ok tt, vs ++ flat_map per_node (walk (parse code))) /\
    forall p,
      (forall l nm args bl body,
         self p = Function l nm args bl body ->
         ((forall rl rvs, ~ In (Return rl rvs) body) ->
            per_node p = [missing_return_finding (get_line_number p)]) /\
         ((exists rl rvs, In (Return rl rvs) body) -> per_node p = [])) /\
      (forall l nm args bl,
         self p = Function l nm args bl [] ->
         per_node p = [missing_return_finding (get_line_number p)]) /\
      (forall l nm args bl il t il' rl rvs e,
         self p = Function l nm args bl [If il t (Block il' [Return rl rvs]) e] ->
         per_node p = [missing_return_finding (get_line_number p)]) /\
      ((forall l nm args bl body, self p <> Function l nm args bl body) ->
         per_node p = []).
Proof.
  exists (fun p => emitted (analyze_return_visit p)). split.
  - apply rule_completes, analyze_return_visit_completes.
  - intros p. rewrite analyze_return_visit_emitted.
    split; [|split; [|split]].
    + intros l nm args bl body E. rewrite E. split; intros H.
      * destruct (existsb is_Return body) eqn:Ex; [|reflexivity].
        apply existsb_is_Return in Ex. destruct Ex as (rl & rvs & Hin).
        now elim (H rl rvs).
      * apply existsb_is_Return in H. now rewrite H.
    + intros l nm args bl E. now rewrite E.
    + intros l nm args bl il t il' rl rvs e E. now rewrite E.
    + intros H. destruct (self p) as [| | | | | | | |
        |fl fnm fargs fbl fbody| | | | | | |] eqn:E; try reflexivity.
      now elim (H fl fnm fargs fbl fbody).
Qed.

Lemma analyze_return_direct_statements_witness :
  analyze_return
    (Chunk None (Block None
       [Function (Some 1%Z) (Name (Some 1%Z) "f") [] (Some 1%Z) []])) []
  = (Ok tt, [missing_return_finding (Some 1%Z)]).
Proof.
  set (code := Chunk None (Block None
       [Function (Some 1%Z) (Name (Some 1%Z) "f") [] (Some 1%Z) []])).
  destruct (analyze_return_direct_statements code []) as (per_node & Hrun & Hn).
  rewrite Hrun. f_equal.
  assert (E : forall p, In p (walk (parse code)) ->
                per_node p = match self p with
                             | Function _ _ _ _ _ => [missing_return_finding (Some 1%Z)]
                             | _ => []
                             end).
  { intros p Hin. destruct (Hn p) as (_ & He & _ & Ho).
    simpl in Hin.
    repeat (destruct Hin as [<-|Hin]; [simpl; first [now apply Ho | now erewrite He by reflexivity]|]).
    contradiction. }
  simpl. rewrite !E by (simpl; tauto). reflexivity.
Defined.

(** * Private Key Exposure *)

Lemma in_words_In (s : string) (words : list string) :
  in_words s words = true <-> In s words.
Proof.
  unfold in_words. rewrite existsb_exists. split.
  - intros (w & Hin & E). apply String.eqb_eq in E. now subst.
  - intros H. exists s. split; [assumption | apply String.eqb_refl].
Qed.

Lemma in_words_not_In (s : string) (words : list string) :
  in_words s words = false <-> ~ In s words.
Proof.
  rewrite <- in_words_In. now destruct (in_words s words).
Qed.

Lemma check_private_key_exposure_visit_emitted (p : pyobj) :
  emitted (check_private_key_exposure_visit p) =
    match self p with
    | Assign _ targets _ | LocalAssign _ targets _ =>
        flat_map (private_key_target p) targets
    | _ => []
    end.
Proof.
  unfold check_private_key_exposure_visit.
  destruct (self p); try reflexivity;
    apply emitted_for_each; intro target; completer.
Qed.

Lemma private_key_target_eq (p : pyobj) (target : node) :
  private_key_target p target =
    if private_key_name target
    then match target with
         | Name _ id => [private_key_finding id (get_line_number p)]
         | _ => []
         end
    else [].
Proof.
  unfold private_key_target, private_key_name.
  destruct target as [| | | | | | | | | | |nl id| | | | |]; try reflexivity.
  rewrite emitted_when. fold private_key_words.
  now destruct (in_words (lower id) private_key_words).
Qed.

Lemma private_key_target_count (p : pyobj) (targets : list node) :
  List.length (flat_map (private_key_target p) targets)
  = count private_key_name targets.
Proof.
  unfold count. induction targets as [|t targets IH]; [reflexivity|].
  cbn [flat_map filter]. rewrite length_app, IH, private_key_target_eq.
  destruct (private_key_name t) eqn:E; [|reflexivity].
  destruct t as [| | | | | | | | | | |nl id| | | | |]; try discriminate E.
  reflexivity.
Qed.

(** C5, as the code has it.  The Private Key Exposure rule appends, for every
    node of the walk that is an Assign or a LocalAssign (the test is
    [isinstance(node, astnodes.Assign)], and LocalAssign is a subclass of
    Assign, so [local private_key = 1] is reported like [private_key = 1])
    and for every target of it in order, exactly one high-severity finding
    when the target is a Name whose lower-cased identifier is one of
    privatekey, private_key, secretkey, secret_key, keypair, key_pair,
    api_key, and nothing otherwise.  An assignment therefore gets as many
    findings as it has such targets, which can be more than one.  The match
    is on the whole identifier, so [public_key] and [my_private_key] give
    none, and case is ignored. *)
Theorem check_private_key_exposure_exact_names (code : node) (vs : list Finding) :
  exists per_target : pyobj -> node -> list Finding,
    check_private_key_exposure code vs
      = (Ok tt,
         vs ++ flat_map (fun p => match self p with
                                  | Assign _ targets _ | LocalAssign _ targets _ =>
                                      flat_map (per_target p) targets
                                  | _ => []
                                  end) (walk (parse code))) /\
    forall p,
      (forall l id,
         In (lower id) ["privatekey"; "private_key"; "secretkey"; "secret_key";
                        "keypair"; "key_pair"; "api_key"] ->
         per_target p (Name l id) = [private_key_finding id (get_line_number p)]) /\
      (forall l id,
         ~ In (lower id) ["privatekey"; "private_key"; "secretkey"; "secret_key";
                          "keypair"; "key_pair"; "api_key"] ->
         per_target p (Name l id) = []) /\
      (forall target, (forall l id, target <> Name l id) -> per_target p target = []) /\
      (forall l, per_target p (Name l "public_key") = []) /\
      (forall l, per_target p (Name l "my_private_key") = []) /\
      (forall l, per_target p (Name l "Private_Key")
                 = [private_key_finding "Private_Key" (get_line_number p)]) /\
      (forall targets,
         List.length (flat_map (per_target p) targets)
         = count private_key_name targets) /\
      (forall l1 id1 l2 id2,
         In (lower id1) ["privatekey"; "private_key"; "secretkey"; "secret_key";
                         "keypair"; "key_pair"; "api_key"] ->
         In (lower id2) ["privatekey"; "private_key"; "secretkey"; "secret_key";
                         "keypair"; "key_pair"; "api_key"] ->
         flat_map (per_target p) [Name l1 id1; Name l2 id2]
         = [private_key_finding id1 (get_line_number p);
            private_key_finding id2 (get_line_number p)]).
Proof.
  exists private_key_target. split.
  - unfold check_private_key_exposure.
    rewrite (rule_completes _ code vs check_private_key_exposure_visit_completes).
    do 2 f_equal. apply flat_map_ext. intro p.
    apply check_private_key_exposure_visit_emitted.
  - intros p.
    assert (Hin : forall l id,
              In (lower id) ["privatekey"; "private_key"; "secretkey"; "secret_key";
                             "keypair"; "key_pair"; "api_key"] ->
              private_key_target p (Name l id)
              = [private_key_finding id (get_line_number p)]).
    { intros l id H. unfold private_key_target.
      apply in_words_In in H. fold private_key_words in H. now rewrite H. }
    split; [exact Hin|].
    split.
    { intros l id H. unfold private_key_target.
      apply in_words_not_In in H. fold private_key_words in H. now rewrite H. }
    split.
    { intros target H.
      destruct target as [| | | | | | | | | | |nl id| | | | |]; try reflexivity.
      now elim (H nl id). }
    split; [reflexivity|]. split; [reflexivity|]. split; [reflexivity|].
    split; [apply private_key_target_count|].
    intros l1 id1 l2 id2 H1 H2. cbn [flat_map].
    now rewrite (Hin l1 id1 H1), (Hin l2 id2 H2).
Qed.

Lemma check_private_key_exposure_exact_names_witness :
  check_private_key_exposure
    (Chunk None (Block None
       [Assign (Some 3%Z) [Name (Some 3%Z) "API_KEY"; Name (Some 3%Z) "public_key"]
               [Number (Some 3%Z) 1%Z; Number (Some 3%Z) 2%Z];
        LocalAssign (Some 4%Z) [Name (Some 4%Z) "secret_key"]
               [Number (Some 4%Z) 3%Z]])) []
  = (Ok tt, [private_key_finding "API_KEY" (Some 3%Z);
             private_key_finding "secret_key" (Some 4%Z)]).
Proof.
  match goal with |- check_private_key_exposure ?c _ = _ =>
    destruct (check_private_key_exposure_exact_names c []) as (per_target & Hrun & Ht)
  end.
  rewrite Hrun. simpl.
  match goal with |- context [per_target ?p (Name ?l "API_KEY")] =>
    destruct (Ht p) as (Hin & _ & _ & Hpub & _);
    rewrite (Hin l "API_KEY") by (vm_compute; tauto);
    rewrite (Hpub l)
  end.
  match goal with |- context [per_target ?p (Name ?l "secret_key")] =>
    destruct (Ht p) as (Hin' & _);
    rewrite (Hin' l "secret_key") by (vm_compute; tauto)
  end.
  reflexivity.
Defined.

(** C5 as stated fails on [private_key, api_key = 1, 2]: the tree holds one
    assignment, whose targets are Names of the list, and the rule appends two
    findings for it, not one. *)
Lemma one_finding_per_assignment_fails :
  let code :=
    Chunk None (Block None
      [Assign (Some 1%Z) [Name (Some 1%Z) "private_key"; Name (Some 1%Z) "api_key"]
              [Number (Some 1%Z) 1%Z; Number (Some 1%Z) 2%Z]]) in
  count has_state_change (map self (walk (parse code))) = 1 /\
  emitted (check_private_key_exposure code)
  = [private_key_finding "private_key" (Some 1%Z);
     private_key_finding "api_key" (Some 1%Z)] /\
  List.length (emitted (check_private_key_exposure code)) <> 1 /\
  count (fun f => name f =? "Private Key Exposure") (snd (scan code [])) = 2.
Proof.
  intros code. repeat split; try reflexivity. discriminate.
Qed.

(** * Reentrancy *)

Lemma flat_map_singletons {A} (P : A -> bool) (f : Finding) (xs : list A) :
  flat_map (fun x => if P x then [f] else []) xs = repeat f (count P xs).
Proof.
  unfold count. induction xs as [|x xs IH]; simpl; [reflexivity|].
  destruct (P x); simpl; now rewrite IH.
Qed.

Lemma skipn_past {A} (pre : list A) (x : A) (rest : list A) :
  skipn (List.length pre + 1) (pre ++ x :: rest) = rest.
Proof.
  induction pre as [|y pre IH]; simpl; [reflexivity|assumption].
Qed.

(** The loop over [enumerate(body)], started after the statements [pre]. *)
Lemma reentrancy_loop_emitted (f : Finding) (pre rest : list node) :
  flat_map
    (fun '(i, n) =>
       if is_external_call n
       then flat_map (fun s => if has_state_change s then [f] else [])
                     (skipn (i + 1) (pre ++ rest))
       else [])
    (combine (seq (List.length pre) (List.length rest)) rest)
  = repeat f (call_then_assign rest).
Proof.
  revert pre. induction rest as [|n rest IH]; intros pre; simpl; [reflexivity|].
  rewrite repeat_app. f_equal.
  - destruct (is_external_call n); [|reflexivity].
    rewrite skipn_past. apply flat_map_singletons.
  - specialize (IH (pre ++ [n])).
    rewrite <- app_assoc, length_app in IH. simpl in IH.
    replace (List.length pre + 1) with (S (List.length pre)) in IH by lia.
    exact IH.
Qed.

Lemma analyze_reentrancy_visit_emitted (p : pyobj) :
  emitted (analyze_reentrancy_visit p) =
    match self p with
    | Function _ _ _ _ body =>
        repeat (reentrancy_finding (get_line_number p)) (call_then_assign body)
    | _ => []
    end.
Proof.
  unfold analyze_reentrancy_visit.
  destruct (self p) as [| | | | | | | | |fl fnm fargs fbl body| | | | | | |];
    try reflexivity.
  rewrite emitted_for_each by (intros [i n]; completer).
  rewrite <- (reentrancy_loop_emitted _ [] body). simpl. unfold enumerate.
  apply flat_map_ext. intros [i n].
  rewrite emitted_when. destruct (is_external_call n); [|reflexivity].
  rewrite emitted_for_each by (intro; completer).
  apply flat_map_ext. intro s. rewrite emitted_when.
  now destruct (has_state_change s).
Qed.

Lemma count_pos {A} (P : A -> bool) (xs : list A) :
  0 < count P xs <-> exists x, In x xs /\ P x = true.
Proof.
  unfold count. induction xs as [|x xs IH]; simpl.
  - split; [lia|]. now intros (x & [] & _).
  - destruct (P x) eqn:E; simpl.
    + split; [|lia]. intros _. exists x. auto.
    + rewrite IH. split.
      * intros (y & Hy & Py). exists y. auto.
      * intros (y & [->|Hy] & Py); [congruence|]. exists y. auto.
Qed.

Lemma call_then_assign_pos (body : list node) :
  0 < call_then_assign body <-> call_before_assign body.
Proof.
  unfold call_before_assign.
  induction body as [|n body IH]; simpl.
  - split; [lia|]. intros (pre & c & mid & a & post & E & _). now destruct pre.
  - split.
    + intros H.
      destruct (is_external_call n) eqn:En.
      * destruct (Nat.eq_dec (count has_state_change body) 0) as [Z|NZ].
        -- rewrite Z in H. simpl in H. apply IH in H.
           destruct H as (pre & c & mid & a & post & -> & Hc & Ha).
           now exists (n :: pre), c, mid, a, post.
        -- assert (Hp : 0 < count has_state_change body) by lia.
           apply count_pos in Hp. destruct Hp as (a & Hin & Ha).
           apply in_split in Hin. destruct Hin as (mid & post & ->).
           now exists [], n, mid, a, post.
      * simpl in H. apply IH in H.
        destruct H as (pre & c & mid & a & post & -> & Hc & Ha).
        now exists (n :: pre), c, mid, a, post.
    + intros (pre & c & mid & a & post & E & Hc & Ha).
      destruct pre as [|x pre]; simpl in E; injection E as E1 E2; subst.
      * rewrite Hc.
        assert (0 < count has_state_change (mid ++ a :: post)); [|lia].
        apply count_pos. exists a. split; [|assumption].
        apply in_or_app. right. now left.
      * assert (0 < call_then_assign (pre ++ c :: mid ++ a :: post)); [|lia].
        apply IH. now exists pre, c, mid, a, post.
Qed.

Lemma is_external_call_spec (n : node) :
  is_external_call n = true <->
  exists l nl xs, n = Call l (Name nl "external_call") xs.
Proof.
  split.
  - destruct n as [| | | | | | | |l f xs| | | | | | | |]; try discriminate.
    destruct f as [| | | | | | | | | | |nl id| | | | |]; try discriminate.
    simpl. intros E. apply String.eqb_eq in E. subst. eauto.
  - intros (l & nl & xs & ->). reflexivity.
Qed.

Lemma has_state_change_spec (n : node) :
  has_state_change n = true <->
  exists l ts vs, n = Assign l ts vs \/ n = LocalAssign l ts vs.
Proof.
  split.
  - destruct n; try discriminate; eauto.
  - intros (l & ts & vs & [->| ->]); reflexivity.
Qed.

(** C3, as the code has it.  The Reentrancy rule appends, node by node in walk
    order: for a Function whose direct statement list holds a call of the
    function named external_call with an assignment somewhere after it, at
    least one finding, all of them high-severity Reentrancy findings; for a
    Function whose list holds no such pair, nothing; and nothing for other
    nodes.  The assignment is an Assign or a LocalAssign: the test is
    [isinstance(node, astnodes.Assign)] and LocalAssign is a subclass of
    Assign.  The lists [external_call(x); y = 1] and [external_call(x);
    local y = 1] give one finding each, [y = 1; external_call(x)] and
    [local y = 1; external_call(x)] give none. *)
Theorem analyze_reentrancy_call_then_assign (code : node) (vs : list Finding) :
  exists per_node : pyobj -> list Finding,
    analyze_reentrancy code vs
      = (Ok tt, vs ++ flat_map per_node (walk (parse code))) /\
    forall p,
      (forall l nm args bl body,
         self p = Function l nm args bl body ->
         ((exists pre cl nl xs mid a al ts avs post,
             body = pre ++ Call cl (Name nl "external_call") xs :: mid ++ a :: post /\
             (a = Assign al ts avs \/ a = LocalAssign al ts avs)) ->
          In (reentrancy_finding (get_line_number p)) (per_node p) /\
          Forall (fun f => f = reentrancy_finding (get_line_number p)
                           /\ severity f = "high" /\ name f = "Reentrancy")
                 (per_node p)) /\
         ((forall pre cl nl xs mid a post,
             body = pre ++ Call cl (Name nl "external_call") xs :: mid ++ a :: post ->
             forall al ts avs, a <> Assign al ts avs /\ a <> LocalAssign al ts avs) ->
          per_node p = [])) /\
      (forall l nm args bl cl nl xs al ts avs,
         self p = Function l nm args bl
                    [Call cl (Name nl "external_call") xs; Assign al ts avs] ->
         per_node p = [reentrancy_finding (get_line_number p)]) /\
      (forall l nm args bl cl nl xs al ts avs,
         self p = Function l nm args bl
                    [Call cl (Name nl "external_call") xs; LocalAssign al ts avs] ->
         per_node p = [reentrancy_finding (get_line_number p)]) /\
      (forall l nm args bl cl nl xs al ts avs,
         self p = Function l nm args bl
                    [Assign al ts avs; Call cl (Name nl "external_call") xs] ->
         per_node p = []) /\
      (forall l nm args bl cl nl xs al ts avs,
         self p = Function l nm args bl
                    [LocalAssign al ts avs; Call cl (Name nl "external_call") xs] ->
         per_node p = []) /\
      ((forall l nm args bl body, self p <> Function l nm args bl body) ->
         per_node p = []).
Proof.
  exists (fun p => emitted (analyze_reentrancy_visit p)). split.
  - apply rule_completes, analyze_reentrancy_visit_completes.
  - intros p. rewrite analyze_reentrancy_visit_emitted.
    split; [|split; [|split; [|split; [|split]]]].
    + intros l nm args bl body E. rewrite E. split.
      * intros (pre & cl & nl & xs & mid & a & al & ts & avs & post & Hb & Ha).
        assert (Hpos : 0 < call_then_assign body).
        { apply call_then_assign_pos. subst body.
          exists pre, (Call cl (Name nl "external_call") xs), mid, a, post.
          split; [reflexivity|]. split; [reflexivity|].
          apply has_state_change_spec. eauto. }
        split.
        -- destruct (call_then_assign body); [lia|]. now left.
        -- apply Forall_forall. intros f Hf. apply repeat_spec in Hf.
           subst f. auto.
      * intros H. destruct (call_then_assign body) eqn:Ec; [reflexivity|].
        assert (Hpos : 0 < call_then_assign body) by lia.
        apply call_then_assign_pos in Hpos.
        destruct Hpos as (pre & c & mid & a & post & Hb & Hc & Ha).
        apply is_external_call_spec in Hc. destruct Hc as (cl & nl & xs & ->).
        apply has_state_change_spec in Ha. destruct Ha as (al & ts & avs & Ha).
        destruct (H pre cl nl xs mid a post Hb al ts avs) as [N1 N2].
        destruct Ha as [Ha|Ha]; [now elim N1 | now elim N2].
    + intros l nm args bl cl nl xs al ts avs E. now rewrite E.
    + intros l nm args bl cl nl xs al ts avs E. now rewrite E.
    + intros l nm args bl cl nl xs al ts avs E. now rewrite E.
    + intros l nm args bl cl nl xs al ts avs E. now rewrite E.
    + intros H. destruct (self p) as [| | | | | | | |
        |fl fnm fargs fbl fbody| | | | | | |] eqn:E; try reflexivity.
      now elim (H fl fnm fargs fbl fbody).
Qed.

Lemma analyze_reentrancy_call_then_assign_witness :
  analyze_reentrancy
    (Chunk None (Block None
       [Function (Some 1%Z) (Name (Some 1%Z) "f") [] (Some 1%Z)
          [Call (Some 2%Z) (Name (Some 2%Z) "external_call") [Name (Some 2%Z) "x"];
           Assign (Some 3%Z) [Name (Some 3%Z) "y"] [Number (Some 3%Z) 1%Z]];
        Function (Some 5%Z) (Name (Some 5%Z) "g") [] (Some 5%Z)
          [Call (Some 6%Z) (Name (Some 6%Z) "external_call") [Name (Some 6%Z) "x"];
           LocalAssign (Some 7%Z) [Name (Some 7%Z) "y"] [Number (Some 7%Z) 1%Z]]])) []
  = (Ok tt, [reentrancy_finding (Some 1%Z); reentrancy_finding (Some 5%Z)]).
Proof.
  match goal with |- analyze_reentrancy ?c _ = _ =>
    destruct (analyze_reentrancy_call_then_assign c []) as (per_node & Hrun & Hn)
  end.
  rewrite Hrun. cbn [walk parse self parent walk_from flat_map app].
  repeat match goal with
  | |- context [per_node ?p] =>
      let H := fresh in
      destruct (Hn p) as (_ & H & _);
      erewrite (H _ _ _ _ _ _ _ _ _ _ eq_refl); clear H
  | |- context [per_node ?p] =>
      let H := fresh in
      destruct (Hn p) as (_ & _ & H & _);
      erewrite (H _ _ _ _ _ _ _ _ _ _ eq_refl); clear H
  | |- context [per_node ?p] =>
      let H := fresh in
      destruct (Hn p) as (_ & _ & _ & _ & _ & H);
      rewrite H by (simpl; discriminate); clear H
  end.
  reflexivity.
Defined.

(** C3 as stated fails on [function f() external_call(x) local y = 1 end]:
    no statement of the body is an Assign node, the only assignment being a
    LocalAssign, and yet the rule appends a Reentrancy finding, which the
    scan keeps. *)
Lemma reentrancy_after_local_assign_reported :
  let body :=
    [Call (Some 2%Z) (Name (Some 2%Z) "external_call") [Name (Some 2%Z) "x"];
     LocalAssign (Some 3%Z) [Name (Some 3%Z) "y"] [Number (Some 3%Z) 1%Z]] in
  let code :=
    Chunk None (Block None
      [Function (Some 1%Z) (Name (Some 1%Z) "f") [] (Some 1%Z) body]) in
  (forall s, In s body -> forall l ts vs, s <> Assign l ts vs) /\
  emitted (analyze_reentrancy code) = [reentrancy_finding (Some 1%Z)] /\
  count (fun f => name f =? "Reentrancy") (snd (scan code [])) = 1.
Proof.
  intros body code. split; [|split; reflexivity].
  intros s Hs l ts vs. simpl in Hs.
  destruct Hs as [<-|[<-|[]]]; discriminate.
Qed.

(** * Integer Overflow/Underflow: one node *)

Lemma is_potential_overflow_true (n : Z) :
  is_potential_overflow n = true <-> (n >= 2147483647 \/ n <= -2147483648)%Z.
Proof.
  unfold is_potential_overflow, INT_MAX, INT_MIN.
  rewrite orb_true_iff, Z.geb_le, Z.leb_le. lia.
Qed.

Lemma is_potential_overflow_false (n : Z) :
  is_potential_overflow n = false <-> (-2147483648 < n < 2147483647)%Z.
Proof.
  unfold is_potential_overflow, INT_MAX, INT_MIN.
  rewrite orb_false_iff, Z.geb_leb, !Z.leb_gt. lia.
Qed.

Lemma overflow_literal_eq (p : pyobj) (desc : string) (v : node) :
  overflow_literal p desc v =
    if overflowing_number v
    then [overflow_finding desc (get_line_number (child p v))]
    else [].
Proof. unfold overflow_literal. now rewrite emitted_when. Qed.

Lemma analyze_overflow_in_node_emitted (p : pyobj) :
  emitted (analyze_overflow_in_node p) =
    match self p with
    | AddOp _ a b | SubOp _ a b | MultOp _ a b =>
        overflow_literal p
          "Potential integer overflow/underflow detected with left operand." a
        ++ overflow_literal p
          "Potential integer overflow/underflow detected with right operand." b
    | LocalAssign _ _ values =>
        flat_map
          (overflow_literal p
             "Potential integer overflow/underflow detected with local variable assignment.")
          values
    | Function _ _ args _ _ =>
        flat_map
          (overflow_literal p
             "Potential integer overflow/underflow detected with function argument.")
          args
    | _ => []
    end.
Proof.
  unfold analyze_overflow_in_node.
  rewrite emitted_seq; [|completer|appender].
  rewrite emitted_seq; [|completer|appender].
  destruct (self p) as [|pl pb|pl ss|pl ts pvs|pl ts values|pl t b e|pl t b e|pl pvs
    |pl f xs|fl fnm fargs fbl fbody|pl n|pl id|pl i v|pl a b|pl a b|pl a b|c pl fs];
    try reflexivity.
  - rewrite !emitted_ret, app_nil_r. cbn [app].
    rewrite emitted_for_each by (intro; completer). reflexivity.
  - rewrite !emitted_ret. cbn [app].
    rewrite emitted_for_each by (intro; completer). reflexivity.
  - rewrite emitted_seq; [|completer|appender].
    rewrite !emitted_ret, !app_nil_r. reflexivity.
  - rewrite emitted_seq; [|completer|appender].
    rewrite !emitted_ret, !app_nil_r. reflexivity.
  - rewrite emitted_seq; [|completer|appender].
    rewrite !emitted_ret, !app_nil_r. reflexivity.
Qed.

(** C2.  For a node [p], every value [v] in an operand field of an
    Add/Sub/Mult, in the value list of a LocalAssign, or in the parameter list
    of a Function contributes to what the overflow check appends, in field
    order: exactly one high-severity Integer Overflow/Underflow finding when
    [v] is a Number whose value is at least 2147483647 or at most
    -2147483648, and nothing when the value lies strictly between the two
    bounds (or [v] is no Number). *)
Theorem analyze_overflow_in_node_bounds (p : pyobj) (vs : list Finding) :
  exists literal : string -> node -> list Finding,
    (forall desc l n,
       (n >= 2147483647 \/ n <= -2147483648)%Z ->
       literal desc (Number l n)
         = [mkFinding "Integer Overflow/Underflow" desc "overflow_underflow" "high"
                      (get_line_number (child p (Number l n)))]) /\
    (forall desc l n,
       (-2147483648 < n < 2147483647)%Z -> literal desc (Number l n) = []) /\
    (forall desc v, (forall l n, v <> Number l n) -> literal desc v = []) /\
    (forall l a b,
       self p = AddOp l a b \/ self p = SubOp l a b \/ self p = MultOp l a b ->
       analyze_overflow_in_node p vs
         = (Ok tt,
            vs ++ literal "Potential integer overflow/underflow detected with left operand." a
               ++ literal "Potential integer overflow/underflow detected with right operand." b)) /\
    (forall l ts values,
       self p = LocalAssign l ts values ->
       analyze_overflow_in_node p vs
         = (Ok tt,
            vs ++ flat_map
                    (literal "Potential integer overflow/underflow detected with local variable assignment.")
                    values)) /\
    (forall l nm args bl body,
       self p = Function l nm args bl body ->
       analyze_overflow_in_node p vs
         = (Ok tt,
            vs ++ flat_map
                    (literal "Potential integer overflow/underflow detected with function argument.")
                    args)).
Proof.
  exists (overflow_literal p).
  pose proof (completes_run _ vs (analyze_overflow_in_node_completes p)) as Hrun.
  rewrite analyze_overflow_in_node_emitted in Hrun.
  split; [|split; [|split; [|split; [|split]]]].
  - intros desc l n H. rewrite overflow_literal_eq. simpl.
    apply is_potential_overflow_true in H. now rewrite H.
  - intros desc l n H. rewrite overflow_literal_eq. simpl.
    apply is_potential_overflow_false in H. now rewrite H.
  - intros desc v H. rewrite overflow_literal_eq.
    destruct v as [| | | | | | | | | |l n| | | | | |]; try reflexivity.
    now elim (H l n).
  - intros l a b [E|[E|E]]; now rewrite E in Hrun.
  - intros l ts values E. now rewrite E in Hrun.
  - intros l nm args bl body E. now rewrite E in Hrun.
Qed.

Lemma analyze_overflow_in_node_bounds_witness :
  analyze_overflow_in_node
    (Obj (AddOp (Some 4%Z) (Number (Some 4%Z) 2147483647%Z) (Number (Some 4%Z) 2147483646%Z))
         None) []
  = (Ok tt,
     [mkFinding "Integer Overflow/Underflow"
        "Potential integer overflow/underflow detected with left operand."
        "overflow_underflow" "high" (Some 4%Z)]).
Proof.
  match goal with |- analyze_overflow_in_node ?p _ = _ =>
    destruct (analyze_overflow_in_node_bounds p [])
      as (literal & Hout & Hin & _ & Hop & _)
  end.
  rewrite (Hop (Some 4%Z) (Number (Some 4%Z) 2147483647%Z) (Number (Some 4%Z) 2147483646%Z))
    by (left; reflexivity).
  rewrite Hout by lia. rewrite Hin by lia. reflexivity.
Defined.

(** * What a rule can append *)

Section EmitsOnly.

Variable Q : Finding -> Prop.

Lemma emits_only_ret {A} (a : A) : emits_only Q (ret a).
Proof. split; [apply appends_ret | constructor]. Qed.

Lemma emits_only_raise {A} (e : exn) : emits_only Q (@raise A e).
Proof. split; [apply appends_raise | constructor]. Qed.

Lemma emits_only_attr_id (n : node) : emits_only Q (attr_id n).
Proof. destruct n; simpl; auto using emits_only_ret, emits_only_raise. Qed.

Lemma emits_only_add (nm d p s : string) (l : option Z) :
  Q (mkFinding nm d p s l) -> emits_only Q (add_vulnerability nm d p s l).
Proof. intros H. split; [apply appends_add | now repeat constructor]. Qed.

Lemma emits_only_bind {A B} (m : M A) (k : A -> M B) :
  emits_only Q m -> (forall a, emits_only Q (k a)) -> emits_only Q (bind m k).
Proof.
  intros [Hm Qm] Hk. split.
  - apply appends_bind; [assumption | intro a; apply Hk].
  - destruct (outcome m) as [a|e] eqn:Ho.
    + destruct (bind_ok m k a Hm (proj1 (Hk a)) Ho) as [_ ->].
      apply Forall_app. split; [assumption | apply Hk].
    + now destruct (bind_raise m k e Hm Ho) as [_ ->].
Qed.

Lemma emits_only_when (c : bool) (m : M unit) :
  emits_only Q m -> emits_only Q (when c m).
Proof. destruct c; simpl; auto using emits_only_ret. Qed.

Lemma emits_only_for_each {A} (xs : list A) (body : A -> M unit) :
  (forall x, emits_only Q (body x)) -> emits_only Q (for_each xs body).
Proof.
  intros H. induction xs as [|x xs IH]; simpl.
  - apply emits_only_ret.
  - apply emits_only_bind; auto.
Qed.

End EmitsOnly.

Ltac emitter :=
  repeat first
    [ apply emits_only_ret | apply emits_only_raise
    | apply emits_only_add; reflexivity
    | apply emits_only_attr_id
    | apply emits_only_when
    | apply emits_only_for_each; intro
    | apply emits_only_bind; [|intro]
    | match goal with
      | |- emits_only _ (match ?x with _ => _ end) => destruct x
      end ].

Section RuleNames.

Variable code : node.

Lemma analyze_return_names :
  emits_only (named "Missing Return Statement") (analyze_return code).
Proof. unfold analyze_return, analyze_return_visit, named. emitter. Qed.

Lemma analyze_overflow_in_node_names (p : pyobj) :
  emits_only (named "Integer Overflow/Underflow") (analyze_overflow_in_node p).
Proof. unfold analyze_overflow_in_node, named. emitter. Qed.

Lemma analyze_overflow_and_return_names :
  emits_only (named "Integer Overflow/Underflow") (analyze_overflow_and_return code).
Proof.
  unfold analyze_overflow_and_return, analyze_overflow_and_return_visit.
  apply emits_only_for_each. intro p.
  apply emits_only_bind; [apply analyze_overflow_in_node_names|intro].
  apply emits_only_bind; [|intro].
  - unfold analyze_function_body.
    destruct (self p); try apply emits_only_ret.
    apply emits_only_for_each, analyze_overflow_in_node_names.
  - unfold analyze_another_example, named. emitter.
Qed.

Lemma analyze_reentrancy_names :
  emits_only (named "Reentrancy") (analyze_reentrancy code).
Proof. unfold analyze_reentrancy, analyze_reentrancy_visit, named. emitter. Qed.

Lemma check_private_key_exposure_names :
  emits_only (named "Private Key Exposure") (check_private_key_exposure code).
Proof.
  unfold check_private_key_exposure, check_private_key_exposure_visit, named. emitter.
Qed.

Lemma analyze_floating_pragma_names :
  emits_only (named "Floating Pragma") (analyze_floating_pragma code).
Proof.
  unfold analyze_floating_pragma, analyze_floating_pragma_visit, named. emitter.
Qed.

Lemma analyze_denial_of_service_names :
  emits_only (named "Denial of Service") (analyze_denial_of_service code).
Proof.
  unfold analyze_denial_of_service, analyze_denial_of_service_visit, named. emitter.
Qed.

Lemma analyze_unchecked_external_calls_names :
  emits_only (named "Unchecked External Calls") (analyze_unchecked_external_calls code).
Proof.
  unfold analyze_unchecked_external_calls, analyze_unchecked_external_calls_visit, named.
  emitter.
Qed.

Lemma analyze_greedy_suicidal_functions_names :
  emits_only (named "Greedy/Suicidal Functions") (analyze_greedy_suicidal_functions code).
Proof.
  unfold analyze_greedy_suicidal_functions, analyze_greedy_suicidal_functions_visit, named.
  emitter.
Qed.

(** The scan only appends. *)
Lemma scan_appends : appends (scan code).
Proof.
  unfold scan.
  repeat (apply appends_bind; [|intro]);
    first [ apply analyze_return_names
          | apply analyze_overflow_and_return_names
          | apply analyze_reentrancy_names
          | apply check_private_key_exposure_names
          | apply analyze_floating_pragma_names
          | apply analyze_denial_of_service_names
          | apply analyze_unchecked_external_calls_names
          | apply analyze_greedy_suicidal_functions_names ].
Qed.

End RuleNames.

(** A finding appended by a sequence was appended by one of its parts. *)
Lemma in_emitted_seq {A} (m : M A) (k : M unit) (f : Finding) :
  appends m -> appends k ->
  In f (emitted (m ;; k)) -> In f (emitted m) \/ In f (emitted k).
Proof.
  intros Hm Hk Hin.
  destruct (outcome m) as [a|e] eqn:Ho.
  - destruct (bind_ok m (fun _ => k) a Hm Hk Ho) as [_ E].
    rewrite E in Hin. now apply in_app_or.
  - destruct (bind_raise m (fun _ => k) e Hm Ho) as [_ E].
    rewrite E in Hin. now left.
Qed.

(** In the whole scan, a finding named Reentrancy comes from the Reentrancy
    rule. *)
Lemma scan_reentrancy_source (code : node) (f : Finding) :
  In f (emitted (scan code)) -> name f = "Reentrancy" ->
  In f (emitted (analyze_reentrancy code)).
Proof.
  intros Hin Hname. unfold scan in Hin.
  pose proof (analyze_return_names code) as [A1 N1].
  pose proof (analyze_overflow_and_return_names code) as [A2 N2].
  pose proof (analyze_reentrancy_names code) as [A3 N3].
  pose proof (check_private_key_exposure_names code) as [A4 N4].
  pose proof (analyze_floating_pragma_names code) as [A5 N5].
  pose proof (analyze_denial_of_service_names code) as [A6 N6].
  pose proof (analyze_unchecked_external_calls_names code) as [A7 N7].
  pose proof (analyze_greedy_suicidal_functions_names code) as [A8 N8].
  rewrite Forall_forall in N1, N2, N4, N5, N6, N7, N8.
  unfold named in *.
  apply in_emitted_seq in Hin; [|assumption|repeat (apply appends_bind; [|intro]); assumption].
  destruct Hin as [Hin|Hin]; [apply N1 in Hin; congruence|].
  apply in_emitted_seq in Hin; [|assumption|repeat (apply appends_bind; [|intro]); assumption].
  destruct Hin as [Hin|Hin]; [apply N2 in Hin; congruence|].
  apply in_emitted_seq in Hin; [|assumption|repeat (apply appends_bind; [|intro]); assumption].
  destruct Hin as [Hin|Hin]; [assumption|].
  apply in_emitted_seq in Hin; [|assumption|repeat (apply appends_bind; [|intro]); assumption].
  destruct Hin as [Hin|Hin]; [apply N4 in Hin; congruence|].
  apply in_emitted_seq in Hin; [|assumption|repeat (apply appends_bind; [|intro]); assumption].
  destruct Hin as [Hin|Hin]; [apply N5 in Hin; congruence|].
  apply in_emitted_seq in Hin; [|assumption|repeat (apply appends_bind; [|intro]); assumption].
  destruct Hin as [Hin|Hin]; [apply N6 in Hin; congruence|].
  apply in_emitted_seq in Hin; [|assumption|assumption].
  destruct Hin as [Hin|Hin]; [apply N7 in Hin; congruence|].
  apply N8 in Hin; congruence.
Qed.

(** C10.  Every finding named Reentrancy that the scan appends carries the
    resolved line of a Function node of the tree, the one whose direct
    statement list holds the external_call call and the later assignment
    (an Assign or a LocalAssign, which the test accepts alike); the lines of
    the call and of the assignment play no part: whatever they are, a
    function at line [lf] holding the two statements is reported at [lf]. *)
Theorem reentrancy_line_is_function_line :
  (forall code f,
     In f (emitted (scan code)) -> name f = "Reentrancy" ->
     exists p l nm args bl body,
       In p (walk (parse code)) /\
       self p = Function l nm args bl body /\
       (exists pre cl nl xs mid a al ts avs post,
          body = pre ++ Call cl (Name nl "external_call") xs :: mid ++ a :: post /\
          (a = Assign al ts avs \/ a = LocalAssign al ts avs)) /\
       line f = get_line_number p) /\
  (forall lf lc la fname xname yname n,
     emitted (analyze_reentrancy
       (Chunk None (Block None
          [Function (Some lf) (Name (Some lf) fname) [] (Some lf)
             [Call (Some lc) (Name (Some lc) "external_call") [Name (Some lc) xname];
              Assign (Some la) [Name (Some la) yname] [Number (Some la) n]]])))
     = [reentrancy_finding (Some lf)]) /\
  (forall lf lc la fname xname yname n,
     emitted (analyze_reentrancy
       (Chunk None (Block None
          [Function (Some lf) (Name (Some lf) fname) [] (Some lf)
             [Call (Some lc) (Name (Some lc) "external_call") [Name (Some lc) xname];
              LocalAssign (Some la) [Name (Some la) yname] [Number (Some la) n]]])))
     = [reentrancy_finding (Some lf)]).
Proof.
  split; [|split].
  - intros code f Hin Hname.
    apply scan_reentrancy_source in Hin; [|assumption].
    unfold analyze_reentrancy in Hin.
    rewrite emitted_for_each in Hin by apply analyze_reentrancy_visit_completes.
    apply in_flat_map in Hin. destruct Hin as (p & Hp & Hf).
    rewrite analyze_reentrancy_visit_emitted in Hf.
    destruct (self p) as [| | | | | | | | |fl fnm fargs fbl body| | | | | | |] eqn:E;
      try contradiction.
    exists p, fl, fnm, fargs, fbl, body.
    assert (Hpos : 0 < call_then_assign body).
    { destruct (call_then_assign body); [contradiction|lia]. }
    apply repeat_spec in Hf. subst f.
    repeat split; try assumption.
    apply call_then_assign_pos in Hpos.
    destruct Hpos as (pre & c & mid & a & post & Hb & Hc & Ha).
    apply is_external_call_spec in Hc. destruct Hc as (cl & nl & xs & ->).
    apply has_state_change_spec in Ha. destruct Ha as (al & ts & avs & Ha).
    now exists pre, cl, nl, xs, mid, a, al, ts, avs, post.
  - intros lf lc la fname xname yname n.
    unfold analyze_reentrancy.
    rewrite emitted_for_each by apply analyze_reentrancy_visit_completes.
    cbn [walk parse self parent walk_from flat_map app].
    rewrite !analyze_reentrancy_visit_emitted. reflexivity.
  - intros lf lc la fname xname yname n.
    unfold analyze_reentrancy.
    rewrite emitted_for_each by apply analyze_reentrancy_visit_completes.
    cbn [walk parse self parent walk_from flat_map app].
    rewrite !analyze_reentrancy_visit_emitted. reflexivity.
Qed.

Lemma reentrancy_line_is_function_line_witness :
  let code :=
    Chunk None (Block None
      [Function (Some 10%Z) (Name (Some 10%Z) "withdraw") [] (Some 10%Z)
         [Call (Some 11%Z) (Name (Some 11%Z) "external_call") [Name (Some 11%Z) "x"];
          LocalAssign (Some 12%Z) [Name (Some 12%Z) "y"] [Number (Some 12%Z) 1%Z]]]) in
  exists p, In p (walk (parse code)) /\ get_line_number p = Some 10%Z.
Proof.
  intros code.
  destruct (proj1 reentrancy_line_is_function_line code (reentrancy_finding (Some 10%Z)))
    as (p & l & nm & args & bl & body & Hp & _ & _ & Hl).
  - vm_compute. tauto.
  - reflexivity.
  - exists p. split; [assumption|]. now rewrite <- Hl.
Defined.

(** * Greedy/Suicidal Functions *)

Lemma greedy_flags_eq (body : list node) :
  greedy_flags body = (existsb is_fund_transfer body, existsb has_conditional body).
Proof.
  unfold greedy_flags.
  change (existsb is_fund_transfer body) with (false || existsb is_fund_transfer body).
  change (existsb has_conditional body) with (false || existsb has_conditional body).
  generalize false at 1 3. generalize false.
  induction body as [|n body IH]; intros hc ht; simpl.
  - now rewrite !orb_false_r.
  - rewrite IH. destruct (is_fund_transfer n), (has_conditional n), ht, hc; reflexivity.
Qed.

Lemma is_fund_transfer_spec (n : node) :
  is_fund_transfer n = true <->
  exists l nl id xs,
    n = Call l (Name nl id) xs /\
    In (lower id) ["transfer"; "transfer_funds"; "transferfunds"; "send"; "pay"].
Proof.
  split.
  - destruct n as [| | | | | | | |l f xs| | | | | | | |]; try discriminate.
    destruct f as [| | | | | | | | | | |nl id| | | | |]; try discriminate.
    unfold is_fund_transfer. intros E. apply in_words_In in E.
    now exists l, nl, id, xs.
  - intros (l & nl & id & xs & -> & Hin). unfold is_fund_transfer.
    now apply in_words_In.
Qed.

Lemma has_conditional_spec (n : node) :
  has_conditional n = true <->
  (exists l t b e, n = If l t b e) \/ (exists l t b e, n = ElseIf l t b e).
Proof.
  split.
  - destruct n; try discriminate; intros _; [left|right]; eauto.
  - intros [(l & t & b & e & ->)|(l & t & b & e & ->)]; reflexivity.
Qed.

(** The whole effect of the visit of a Function node whose name is a Name. *)
Lemma analyze_greedy_suicidal_functions_visit_named
      (p : pyobj) (l nl : option Z) (id : string) (args : list node)
      (bl : option Z) (body : list node) (vs : list Finding) :
  self p = Function l (Name nl id) args bl body ->
  analyze_greedy_suicidal_functions_visit p vs
    = (Ok tt, vs ++ if greedy_body body then [greedy_finding id (get_line_number p)] else []).
Proof.
  intros E. unfold analyze_greedy_suicidal_functions_visit. rewrite E.
  rewrite greedy_flags_eq. fold (greedy_body body).
  destruct (greedy_body body); simpl.
  - reflexivity.
  - unfold ret. now rewrite app_nil_r.
Qed.

(** The visit of a reported Function node whose name is no Name raises, with
    nothing appended. *)
Lemma analyze_greedy_suicidal_functions_visit_unnamed
      (p : pyobj) (l : option Z) (nm : node) (args : list node)
      (bl : option Z) (body : list node) (vs : list Finding) :
  self p = Function l nm args bl body ->
  (forall nl id, nm <> Name nl id) ->
  greedy_body body = true ->
  analyze_greedy_suicidal_functions_visit p vs = (Raise (AttributeError "id"), vs).
Proof.
  intros E Hnm Hb. unfold analyze_greedy_suicidal_functions_visit. rewrite E.
  rewrite greedy_flags_eq. fold (greedy_body body). rewrite Hb. simpl.
  destruct nm as [| | | | | | | | | | |nl id| | | | |]; try reflexivity.
  now elim (Hnm nl id).
Qed.

Lemma greedy_body_true (body : list node) :
  greedy_body body = true <->
  (exists cl nl id xs,
     In (Call cl (Name nl id) xs) body /\
     In (lower id) ["transfer"; "transfer_funds"; "transferfunds"; "send"; "pay"]) /\
  (forall l t b e, ~ In (If l t b e) body /\ ~ In (ElseIf l t b e) body).
Proof.
  unfold greedy_body. rewrite andb_true_iff, negb_true_iff, existsb_exists.
  split.
  - intros [(n & Hin & Hn) Hc]. split.
    + apply is_fund_transfer_spec in Hn.
      destruct Hn as (cl & nl & id & xs & -> & Hw). now exists cl, nl, id, xs.
    + intros l t b e. split; intros Hi;
        assert (X : existsb has_conditional body = true)
          by (apply existsb_exists; eexists; split; [exact Hi|reflexivity]);
        congruence.
  - intros [(cl & nl & id & xs & Hin & Hw) Hc]. split.
    + exists (Call cl (Name nl id) xs). split; [assumption|].
      apply is_fund_transfer_spec. now exists cl, nl, id, xs.
    + destruct (existsb has_conditional body) eqn:Ex; [|reflexivity].
      apply existsb_exists in Ex. destruct Ex as (n & Hin' & Hn).
      apply has_conditional_spec in Hn.
      destruct Hn as [(l & t & b & e & ->)|(l & t & b & e & ->)];
        now destruct (Hc l t b e).
Qed.

Lemma greedy_body_conditional (body : list node) :
  ((exists l t b e, In (If l t b e) body) \/ (exists l t b e, In (ElseIf l t b e) body)) ->
  greedy_body body = false.
Proof.
  intros H. destruct (greedy_body body) eqn:E; [|reflexivity].
  apply greedy_body_true in E. destruct E as [_ Hc].
  destruct H as [(l & t & b & e & Hin)|(l & t & b & e & Hin)];
    now destruct (Hc l t b e).
Qed.

(** For a Function node whose name is a Name, the rule does what the
    catalogue says: one high-severity finding when the direct statement list
    holds a call of a transfer function and no If or ElseIf, nothing when
    it holds an If or ElseIf. *)
Lemma analyze_greedy_suicidal_functions_named_function
      (p : pyobj) (l nl : option Z) (id : string) (args : list node)
      (bl : option Z) (body : list node) (vs : list Finding) :
  self p = Function l (Name nl id) args bl body ->
  ((exists cl cnl cid xs,
      In (Call cl (Name cnl cid) xs) body /\
      In (lower cid) ["transfer"; "transfer_funds"; "transferfunds"; "send"; "pay"]) ->
   (forall il t b e, ~ In (If il t b e) body /\ ~ In (ElseIf il t b e) body) ->
   analyze_greedy_suicidal_functions_visit p vs
     = (Ok tt, vs ++ [greedy_finding id (get_line_number p)])) /\
  (((exists il t b e, In (If il t b e) body) \/
    (exists il t b e, In (ElseIf il t b e) body)) ->
   analyze_greedy_suicidal_functions_visit p vs = (Ok tt, vs)).
Proof.
  intros E.
  rewrite (analyze_greedy_suicidal_functions_visit_named p l nl id args bl body vs E).
  split.
  - intros Ht Hc.
    assert (Hb : greedy_body body = true) by (apply greedy_body_true; auto).
    now rewrite Hb.
  - intros Hc. rewrite (greedy_body_conditional body Hc). now rewrite app_nil_r.
Qed.

(** Whatever its name, a Function node whose direct statement list holds an
    If or ElseIf is not reported. *)
Lemma analyze_greedy_suicidal_functions_visit_conditional
      (p : pyobj) (l : option Z) (nm : node) (args : list node)
      (bl : option Z) (body : list node) (vs : list Finding) :
  self p = Function l nm args bl body ->
  ((exists il t b e, In (If il t b e) body) \/
   (exists il t b e, In (ElseIf il t b e) body)) ->
  analyze_greedy_suicidal_functions_visit p vs = (Ok tt, vs).
Proof.
  intros E Hc. unfold analyze_greedy_suicidal_functions_visit. rewrite E.
  rewrite greedy_flags_eq. fold (greedy_body body).
  now rewrite (greedy_body_conditional body Hc).
Qed.

(** C4, at the failing input [function M.f() transfer(1) end].  The parser
    gives a dotted function name as an Index node.  The function's direct
    statement list holds a call of [transfer] and no If or ElseIf, and yet the
    rule appends nothing: reading [node.name.id] raises AttributeError.  In
    the whole scan the overflow rule has raised on the same read before. *)
Theorem analyze_greedy_suicidal_functions_dotted_name :
  let body := [Call (Some 1%Z) (Name (Some 1%Z) "transfer") [Number (Some 1%Z) 1%Z]] in
  let code :=
    Chunk None (Block None
      [Function (Some 1%Z)
         (Index (Some 1%Z) (Name (Some 1%Z) "f") (Name (Some 1%Z) "M"))
         [] (Some 1%Z) body]) in
  (exists cl nl id xs,
     In (Call cl (Name nl id) xs) body /\
     In (lower id) ["transfer"; "transfer_funds"; "transferfunds"; "send"; "pay"]) /\
  (forall l t b e, ~ In (If l t b e) body /\ ~ In (ElseIf l t b e) body) /\
  analyze_greedy_suicidal_functions code [] = (Raise (AttributeError "id"), []) /\
  scan code [] = (Raise (AttributeError "id"), [missing_return_finding (Some 1%Z)]).
Proof.
  intros body code. split; [|split; [|split]].
  - exists (Some 1%Z), (Some 1%Z), "transfer", [Number (Some 1%Z) 1%Z].
    split; [now left | now left].
  - intros l t b e. split; intros [H|[]]; discriminate.
  - reflexivity.
  - reflexivity.
Qed.

(** * The scan as a whole *)

Lemma Finding_eq_dec (f g : Finding) : {f = g} + {f <> g}.
Proof.
  decide equality; try apply string_dec.
  decide equality. apply Z.eq_dec.
Defined.

(** The effect of a scan that ends normally, from any state of the list. *)
Lemma scan_run_ok (code : node) (vs : list Finding) :
  outcome (scan code) = Ok tt -> scan code vs = (Ok tt, vs ++ emitted (scan code)).
Proof. intros H. now rewrite (scan_appends code vs), H. Qed.

(** C7.  When the scan of a source ends normally and appends the findings
    [out] to an empty list: two turns of the loop of [main] on that source,
    the list never being cleared, report [out] and then [out ++ out], in which
    every finding occurs exactly twice as often as in [out]; with the list
    drained after each turn, both turns report [out]. *)
Theorem scan_twice_doubles (code : node) :
  outcome (scan code) = Ok tt ->
  let out := emitted (scan code) in
  main [code; code] [] = (Ok [out; out ++ out], out ++ out) /\
  (forall f, count_occ Finding_eq_dec (out ++ out) f
             = 2 * count_occ Finding_eq_dec out f) /\
  main_draining [code; code] [] = (Ok [out; out], []).
Proof.
  intros H out. split; [|split].
  - unfold main, scan_and_report, report, bind, ret.
    rewrite (scan_run_ok code [] H). cbn [app]. fold out.
    rewrite (scan_run_ok code out H). reflexivity.
  - intros f. rewrite count_occ_app. lia.
  - unfold main_draining, drain, bind, ret.
    rewrite (scan_run_ok code [] H). cbn [app]. fold out. reflexivity.
Qed.

Lemma scan_twice_doubles_witness :
  let code :=
    Chunk None (Block None
      [Function (Some 1%Z) (Name (Some 1%Z) "pay_out") [Name (Some 1%Z) "amt"] (Some 1%Z)
         [Call (Some 2%Z) (Name (Some 2%Z) "transfer") [Name (Some 2%Z) "amt"]]]) in
  main [code; code] []
  = (Ok [[missing_return_finding (Some 1%Z); greedy_finding "pay_out" (Some 1%Z)];
         [missing_return_finding (Some 1%Z); greedy_finding "pay_out" (Some 1%Z);
          missing_return_finding (Some 1%Z); greedy_finding "pay_out" (Some 1%Z)]],
     [missing_return_finding (Some 1%Z); greedy_finding "pay_out" (Some 1%Z);
      missing_return_finding (Some 1%Z); greedy_finding "pay_out" (Some 1%Z)]).
Proof.
  intros code.
  destruct (scan_twice_doubles code) as (Hmain & _).
  - reflexivity.
  - rewrite Hmain. reflexivity.
Defined.

(** The overflow visit can only fail on [node.name.id]. *)
Lemma analyze_overflow_and_return_visit_outcome (p : pyobj) :
  outcome (analyze_overflow_and_return_visit p) =
    match self p with
    | Function _ (Name _ _) _ _ _ => Ok tt
    | Function _ _ _ _ _ => Raise (AttributeError "id")
    | _ => Ok tt
    end.
Proof.
  unfold analyze_overflow_and_return_visit.
  rewrite outcome_seq;
    [|apply analyze_overflow_in_node_completes
     |apply appends_bind;
        [apply analyze_function_body_completes
        |intro; apply analyze_another_example_appends]].
  rewrite outcome_seq;
    [|apply analyze_function_body_completes|apply analyze_another_example_appends].
  unfold analyze_another_example.
  destruct (self p) as [| | | | | | | | |fl fnm fargs fbl body| | | | | | |];
    try reflexivity.
  destruct fnm as [| | | | | | | | | | |nl id| | | | |]; try reflexivity.
  match goal with |- outcome ?m = _ => assert (C : completes m) by (simpl; completer) end.
  apply C.
Qed.

(** A loop in which some turn raises ends with the exception of the first
    turn that raises. *)
Lemma for_each_first_raise {A} (xs : list A) (body : A -> M unit) (x : A) (e : exn) :
  (forall y, appends (body y)) ->
  In x xs -> outcome (body x) = Raise e ->
  exists pre x' post e',
    xs = pre ++ x' :: post /\
    (forall y, In y pre -> outcome (body y) = Ok tt) /\
    outcome (body x') = Raise e'.
Proof.
  intros HA. induction xs as [|y xs IH]; intros Hin Hx; [contradiction|].
  destruct (outcome (body y)) as [[]|e'] eqn:Oy.
  - destruct Hin as [->|Hin]; [congruence|].
    destruct (IH Hin Hx) as (pre & x' & post & e'' & -> & Hpre & Hx').
    exists (y :: pre), x', post, e''. repeat split; try assumption.
    intros z [<-|Hz]; auto.
  - exists [], y, xs, e'. repeat split; try assumption. intros z [].
Qed.

Lemma analyze_return_completes (code : node) : completes (analyze_return code).
Proof. apply completes_for_each, analyze_return_visit_completes. Qed.

Lemma analyze_overflow_and_return_appends (code : node) :
  appends (analyze_overflow_and_return code).
Proof. apply appends_for_each, analyze_overflow_and_return_visit_appends. Qed.

(** The overflow rule raises on a tree that holds a Function node whose name
    is no Name. *)
Lemma analyze_overflow_and_return_raises (code : node) (p : pyobj)
      (l : option Z) (nm : node) (args : list node) (bl : option Z) (body : list node) :
  In p (walk (parse code)) ->
  self p = Function l nm args bl body ->
  (forall nl id, nm <> Name nl id) ->
  outcome (analyze_overflow_and_return code) = Raise (AttributeError "id").
Proof.
  intros Hin E Hnm.
  assert (Hp : outcome (analyze_overflow_and_return_visit p) = Raise (AttributeError "id")).
  { rewrite analyze_overflow_and_return_visit_outcome, E.
    destruct nm as [| | | | | | | | | | |nl id| | | | |]; try reflexivity.
    now elim (Hnm nl id). }
  destruct (for_each_first_raise _ _ p _ analyze_overflow_and_return_visit_appends Hin Hp)
    as (pre & x' & post & e' & Hw & Hpre & Hx').
  unfold analyze_overflow_and_return. rewrite Hw.
  assert (e' = AttributeError "id") as ->.
  { rewrite analyze_overflow_and_return_visit_outcome in Hx'.
    destruct (self x') as [| | | | | | | | |fl fnm fargs fbl fbody| | | | | | |];
      try discriminate.
    destruct fnm; congruence. }
  now apply for_each_raises; [apply analyze_overflow_and_return_visit_appends| |].
Qed.

(** C9.  On a tree that holds a Function node without a name (its [name] is
    not a Name node: [None], or the Index of a dotted name), the overflow
    rule raises AttributeError where it reads [node.name.id]; the exception
    ends the scan, so no report is produced, by the scan or by the loop of
    [main], and the list holds only what the Missing Return rule and the
    overflow rule had appended up to there: the six later rules have not
    run. *)
Theorem scan_aborts_on_nameless_function
        (code : node) (p : pyobj) (l : option Z) (nm : node) (args : list node)
        (bl : option Z) (body : list node) (vs : list Finding) :
  In p (walk (parse code)) ->
  self p = Function l nm args bl body ->
  (forall nl id, nm <> Name nl id) ->
  fst (analyze_overflow_and_return code vs) = Raise (AttributeError "id") /\
  scan code vs
    = (Raise (AttributeError "id"),
       vs ++ emitted (analyze_return code) ++ emitted (analyze_overflow_and_return code)) /\
  fst (scan_and_report code vs) = Raise (AttributeError "id") /\
  fst (main [code] vs) = Raise (AttributeError "id").
Proof.
  intros Hin E Hnm.
  pose proof (analyze_overflow_and_return_raises code p l nm args bl body Hin E Hnm) as Ho.
  pose proof (analyze_overflow_and_return_appends code) as Ha.
  pose proof (analyze_return_completes code) as [Ra Ro].
  assert (Hscan : scan code vs
            = (Raise (AttributeError "id"),
               vs ++ emitted (analyze_return code)
                  ++ emitted (analyze_overflow_and_return code))).
  { unfold scan, bind at 1.
    rewrite (Ra vs), Ro. unfold bind at 1.
    rewrite (Ha (vs ++ emitted (analyze_return code))), Ho.
    now rewrite app_assoc. }
  split; [|split; [|split]].
  - now rewrite (Ha vs), Ho.
  - exact Hscan.
  - unfold scan_and_report, bind. now rewrite Hscan.
  - unfold main, scan_and_report, bind. now rewrite Hscan.
Qed.

Lemma scan_aborts_on_nameless_function_witness :
  let f :=
    Function (Some 1%Z) PyNone [] (Some 1%Z)
      [Call (Some 2%Z) (Name (Some 2%Z) "external_call") [];
       Assign (Some 3%Z) [Name (Some 3%Z) "balance"] [Number (Some 3%Z) 0%Z]] in
  let code := Chunk None (Block None [f]) in
  scan code [] = (Raise (AttributeError "id"), [missing_return_finding (Some 1%Z)]) /\
  analyze_reentrancy code [] = (Ok tt, [reentrancy_finding (Some 1%Z)]).
Proof.
  intros f code. split; [|reflexivity].
  destruct (scan_aborts_on_nameless_function code
              (Obj f (Some (Obj (Block None [f]) (Some (parse code)))))
              (Some 1%Z) PyNone [] (Some 1%Z)
              [Call (Some 2%Z) (Name (Some 2%Z) "external_call") [];
               Assign (Some 3%Z) [Name (Some 3%Z) "balance"] [Number (Some 3%Z) 0%Z]] [])
    as (_ & Hscan & _).
  - simpl. tauto.
  - reflexivity.
  - discriminate.
  - rewrite Hscan. reflexivity.
Defined.

(** * Findings per violation instance *)

(** ** Sums over lists and over the walk *)

Section Totals.

Lemma total_nil {A} (f : A -> nat) : total f [] = 0.
Proof. reflexivity. Qed.

Lemma total_cons {A} (f : A -> nat) (x : A) (xs : list A) :
  total f (x :: xs) = f x + total f xs.
Proof. reflexivity. Qed.

Lemma total_app {A} (f : A -> nat) (xs ys : list A) :
  total f (xs ++ ys) = total f xs + total f ys.
Proof. unfold total. now rewrite map_app, list_sum_app. Qed.

Lemma total_flat_map {A B} (f : B -> nat) (g : A -> list B) (xs : list A) :
  total f (flat_map g xs) = total (fun x => total f (g x)) xs.
Proof.
  induction xs as [|x xs IH]; [reflexivity|].
  simpl flat_map. now rewrite total_app, total_cons, IH.
Qed.

Lemma total_map {A B} (f : B -> nat) (g : A -> B) (xs : list A) :
  total f (map g xs) = total (fun x => f (g x)) xs.
Proof. unfold total. now rewrite map_map. Qed.

Lemma total_ext_in {A} (f g : A -> nat) (xs : list A) :
  (forall x, In x xs -> f x = g x) -> total f xs = total g xs.
Proof. intros H. unfold total. f_equal. now apply map_ext_in. Qed.

Lemma total_add {A} (f g : A -> nat) (xs : list A) :
  total (fun x => f x + g x) xs = total f xs + total g xs.
Proof.
  induction xs as [|x xs IH]; [reflexivity|]. rewrite !total_cons, IH. lia.
Qed.

Lemma total_scale {A} (k : nat) (f : A -> nat) (xs : list A) :
  total (fun x => k * f x) xs = k * total f xs.
Proof.
  induction xs as [|x xs IH]; [unfold total; simpl; lia|].
  rewrite !total_cons, IH. lia.
Qed.

Lemma length_flat_map_total {A B} (g : A -> list B) (xs : list A) :
  List.length (flat_map g xs) = total (fun x => List.length (g x)) xs.
Proof.
  induction xs as [|x xs IH]; [reflexivity|].
  simpl flat_map. now rewrite length_app, total_cons, IH.
Qed.

Lemma count_total {A} (P : A -> bool) (xs : list A) :
  count P xs = total (fun x => bool_to_nat (P x)) xs.
Proof.
  unfold count. induction xs as [|x xs IH]; [reflexivity|].
  rewrite total_cons, <- IH. simpl. now destruct (P x).
Qed.

Lemma count_ext_in {A} (P Q : A -> bool) (xs : list A) :
  (forall x, In x xs -> P x = Q x) -> count P xs = count Q xs.
Proof.
  intros H. rewrite !count_total. apply total_ext_in.
  intros x Hx. now rewrite H.
Qed.

Lemma count_map {A B} (P : B -> bool) (g : A -> B) (xs : list A) :
  count P (map g xs) = count (fun x => P (g x)) xs.
Proof. now rewrite !count_total, total_map. Qed.

End Totals.

Lemma map_flat_map {A B C} (f : B -> C) (g : A -> list B) (xs : list A) :
  map f (flat_map g xs) = flat_map (fun x => map f (g x)) xs.
Proof.
  induction xs as [|x xs IH]; [reflexivity|].
  simpl. now rewrite map_app, IH.
Qed.

Lemma flat_map_ext_Forall {A B} (f g : A -> list B) (xs : list A) :
  Forall (fun x => f x = g x) xs -> flat_map f xs = flat_map g xs.
Proof.
  induction 1 as [|x xs Hx _ IH]; [reflexivity|]. simpl. now rewrite Hx, IH.
Qed.

Lemma total_ext_Forall {A} (f g : A -> nat) (xs : list A) :
  Forall (fun x => f x = g x) xs -> total f xs = total g xs.
Proof.
  intros H. apply total_ext_in. now apply Forall_forall.
Qed.

(** The nodes of the depth walk are the nodes of the walk, in the same
    order, whatever the parent and the depth at the root. *)
Lemma walk_nodes (n : node) :
  forall up d, map self (walk_from up n) = map snd (walk_depth d n).
Proof.
  induction n using node_rect'; intros up d;
    cbn [walk_from walk_depth map self snd];
    rewrite ?map_app; cbn [map self snd]; rewrite ?map_app, ?map_flat_map;
    repeat first
      [ reflexivity
      | match goal with
        | H : forall up d, map self (walk_from up ?c) = _ |- map self (walk_from _ ?c) = _ =>
            apply H
        | H : Forall _ ?cs |- flat_map _ ?cs = flat_map _ ?cs =>
            apply flat_map_ext_Forall; revert H; apply Forall_impl;
            let IHc := fresh in intros ? IHc; apply IHc
        end
      | progress f_equal ].
Qed.

Section DepthSums.

(** A measure on nodes. *)
Variable w : node -> nat.

Lemma sum_nodes_depth (g : node -> nat) (n : node) (d : nat) :
  total (fun dm => g (snd dm)) (walk_depth d n) = sum_nodes g n.
Proof.
  unfold sum_nodes.
  rewrite <- !(total_map g snd), <- (walk_nodes n None d), <- (walk_nodes n None 0).
  reflexivity.
Qed.

Lemma sum_nodes_walk (g : node -> nat) (n : node) (up : option pyobj) :
  total (fun p => g (self p)) (walk_from up n) = sum_nodes g n.
Proof.
  unfold sum_nodes.
  rewrite <- (total_map g snd), <- (total_map g self), (walk_nodes n up 0).
  reflexivity.
Qed.

Lemma sum_nodes_list (g : node -> nat) (d : nat) (cs : list node) :
  total (fun dm => g (snd dm)) (flat_map (walk_depth d) cs) = total (sum_nodes g) cs.
Proof.
  rewrite total_flat_map. apply total_ext_in. intros c _. apply sum_nodes_depth.
Qed.

Lemma depth_sum_list (d : nat) (cs : list node) :
  Forall (fun c => forall d,
            total (fun dm => fst dm * w (snd dm)) (walk_depth d c)
            = d * sum_nodes w c + sum_nodes (body_sum w) c) cs ->
  total (fun dm => fst dm * w (snd dm)) (flat_map (walk_depth d) cs)
  = d * total (sum_nodes w) cs + total (sum_nodes (body_sum w)) cs.
Proof.
  intros H. rewrite total_flat_map.
  rewrite (total_ext_Forall _ (fun c => d * sum_nodes w c + sum_nodes (body_sum w) c)).
  - now rewrite total_add, total_scale.
  - revert H. apply Forall_impl. intros c Hc. apply Hc.
Qed.

(** Weighting every node by the number of Function bodies around it
    amounts to summing, over the Function nodes, the measure of their
    bodies. *)
Lemma depth_sum (n : node) :
  forall d,
    total (fun dm => fst dm * w (snd dm)) (walk_depth d n)
    = d * sum_nodes w n + sum_nodes (body_sum w) n.
Proof.
  induction n using node_rect'; intros d;
    unfold sum_nodes; cbn [walk_depth];
    rewrite ?total_cons, ?total_app, ?total_cons, ?total_app;
    cbn [fst snd body_sum];
    rewrite ?sum_nodes_list, ?sum_nodes_depth;
    repeat match goal with
      | H : Forall _ ?cs |- context [flat_map (walk_depth ?k) ?cs] =>
          rewrite (depth_sum_list k cs H)
      | H : forall d, total _ (walk_depth d ?c) = _ |- context [walk_depth ?k ?c] =>
          rewrite (H k)
      end;
    try (unfold total; simpl; lia).
  assert (E : sum_nodes w (Block bl bs) = w (Block bl bs) + total (sum_nodes w) bs).
  { unfold sum_nodes at 1. cbn [walk_depth]. rewrite total_cons. cbn [snd].
    now rewrite sum_nodes_list. }
  rewrite E. lia.
Qed.

End DepthSums.

(** ** Counting through positions *)

Lemma length_filter_prod {A B} (Q : A * B -> bool) (xs : list A) (ys : list B) :
  List.length (filter Q (list_prod xs ys))
  = total (fun x => count (fun y => Q (x, y)) ys) xs.
Proof.
  induction xs as [|x xs IH]; [reflexivity|].
  cbn [list_prod]. rewrite filter_app, length_app, total_cons, IH. f_equal.
  change (count Q (map (fun y => (x, y)) ys) = count (fun y => Q (x, y)) ys).
  apply count_map.
Qed.

Lemma total_seq_S (g : nat -> nat) (m : nat) :
  total g (seq 0 (S m)) = g 0 + total (fun i => g (S i)) (seq 0 m).
Proof.
  cbn [seq]. rewrite total_cons, <- seq_shift, total_map. reflexivity.
Qed.

Lemma count_seq_S (h : nat -> bool) (m : nat) :
  count h (seq 0 (S m)) = bool_to_nat (h 0) + count (fun j => h (S j)) (seq 0 m).
Proof. rewrite !count_total. apply total_seq_S. Qed.

Lemma count_cons {A} (P : A -> bool) (x : A) (xs : list A) :
  count P (x :: xs) = bool_to_nat (P x) + count P xs.
Proof. rewrite !count_total. now rewrite total_cons. Qed.

Lemma count_none {A} (xs : list A) : count (fun _ => false) xs = 0.
Proof. unfold count. induction xs; simpl; auto. Qed.

Lemma count_nth (P : node -> bool) (xs : list node) :
  count (fun j => P (nth j xs PyNone)) (seq 0 (List.length xs)) = count P xs.
Proof.
  induction xs as [|x xs IH]; [reflexivity|].
  cbn [List.length]. rewrite count_seq_S, count_cons. cbn [nth]. now rewrite IH.
Qed.

(** The pairs of positions are as many as the loop counts. *)
Lemma reentrancy_pairs_length (body : list node) :
  List.length (reentrancy_pairs body) = call_then_assign body.
Proof.
  unfold reentrancy_pairs. rewrite length_filter_prod.
  induction body as [|x r IH]; [reflexivity|].
  cbn [List.length call_then_assign]. rewrite total_seq_S. f_equal.
  - rewrite count_seq_S. cbn [nth Nat.ltb Nat.leb andb bool_to_nat Nat.add].
    destruct (is_external_call x).
    + apply count_nth.
    + apply count_none.
  - rewrite <- IH. apply total_ext_in. intros i _.
    rewrite count_seq_S. reflexivity.
Qed.

(** ** The number of findings of one visit *)

Lemma forallb_negb {A} (P : A -> bool) (xs : list A) :
  forallb (fun x => negb (P x)) xs = negb (existsb P xs).
Proof.
  induction xs as [|x xs IH]; [reflexivity|].
  simpl. rewrite IH. now destruct (P x).
Qed.

Lemma length_singletons {A} (P : A -> bool) (f : A -> Finding) (xs : list A) :
  List.length (flat_map (fun x => if P x then [f x] else []) xs) = count P xs.
Proof.
  unfold count. induction xs as [|x xs IH]; [reflexivity|].
  simpl. destruct (P x); simpl; now rewrite IH.
Qed.

Section VisitCounts.

Variable p : pyobj.

Lemma analyze_return_visit_count :
  List.length (emitted (analyze_return_visit p))
  = bool_to_nat (lacks_direct_return (self p)).
Proof.
  rewrite analyze_return_visit_emitted. unfold lacks_direct_return.
  destruct (self p); try reflexivity.
  rewrite forallb_negb. now destruct (existsb is_Return body).
Qed.

Lemma check_private_key_exposure_visit_count :
  List.length (emitted (check_private_key_exposure_visit p))
  = private_key_targets (self p).
Proof.
  rewrite check_private_key_exposure_visit_emitted. unfold private_key_targets.
  destruct (self p); try reflexivity; apply private_key_target_count.
Qed.

Lemma analyze_reentrancy_visit_count :
  List.length (emitted (analyze_reentrancy_visit p)) = reentrancy_instances (self p).
Proof.
  rewrite analyze_reentrancy_visit_emitted. unfold reentrancy_instances.
  destruct (self p); try reflexivity.
  now rewrite repeat_length, reentrancy_pairs_length.
Qed.

Lemma analyze_floating_pragma_visit_count :
  List.length (emitted (analyze_floating_pragma_visit p))
  = bool_to_nat (deprecated_call (self p)).
Proof.
  unfold analyze_floating_pragma_visit, deprecated_call.
  destruct (self p) as [| | | | | | | |cl f xs| | | | | | | |]; try reflexivity.
  destruct f as [| | | | | | | | | | |nl id| | | | |]; try reflexivity.
  rewrite emitted_when. unfold in_words, deprecated_functions. cbn [existsb].
  rewrite orb_false_r.
  now destruct ((id =? "setfenv") || (id =? "getfenv")).
Qed.

Lemma analyze_denial_of_service_visit_count :
  List.length (emitted (analyze_denial_of_service_visit p))
  = bool_to_nat (expensive_call (self p)).
Proof.
  unfold analyze_denial_of_service_visit, expensive_call.
  destruct (self p) as [| | | | | | | |cl f xs| | | | | | | |]; try reflexivity.
  destruct f as [| | | | | | | | | | |nl id| | | | |]; try reflexivity.
  rewrite emitted_when.
  now destruct (id =? "perform_expensive_operation").
Qed.

Lemma analyze_overflow_in_node_count :
  List.length (emitted (analyze_overflow_in_node p)) = overflow_literals (self p).
Proof.
  rewrite analyze_overflow_in_node_emitted. unfold overflow_literals.
  destruct (self p) as [|pl pb|pl ss|pl ts pvs|pl ts values|pl t b e|pl t b e|pl pvs
    |pl f xs|fl fnm fargs fbl fbody|pl n|pl id|pl i v|pl a b|pl a b|pl a b|c pl fs];
    try reflexivity;
    try (rewrite length_app, !overflow_literal_eq;
         now destruct (overflowing_number a), (overflowing_number b));
    match goal with |- List.length (flat_map (overflow_literal p ?d) ?vs) = _ =>
      rewrite <- (length_singletons overflowing_number
                    (fun v => overflow_finding d (get_line_number (child p v))));
      f_equal; apply flat_map_ext; intro; apply overflow_literal_eq
    end.
Qed.

End VisitCounts.

(** ** The visits that read the function name, on a named function *)

Section NamedVisits.

Variable p : pyobj.
Hypothesis Hnamed : named_function (self p) = true.

Lemma analyze_greedy_suicidal_functions_visit_count :
  completes (analyze_greedy_suicidal_functions_visit p) /\
  List.length (emitted (analyze_greedy_suicidal_functions_visit p))
  = bool_to_nat (greedy_function (self p)).
Proof.
  destruct (self p) as [| | | | | | | | |fl fnm fargs fbl body| | | | | | |] eqn:E;
    try (unfold analyze_greedy_suicidal_functions_visit; rewrite E;
         split; [apply completes_ret | reflexivity]).
  destruct fnm as [| | | | | | | | | | |nl id| | | | |]; try discriminate.
  pose proof (analyze_greedy_suicidal_functions_visit_named p fl nl id fargs fbl body)
    as Hrun.
  assert (Hem : emitted (analyze_greedy_suicidal_functions_visit p)
                = if greedy_body body then [greedy_finding id (get_line_number p)]
                  else []).
  { unfold emitted. now rewrite (Hrun [] E). }
  split; [split|].
  - intros vs. unfold outcome. rewrite (Hrun vs E), (Hrun [] E), Hem. reflexivity.
  - unfold outcome. now rewrite (Hrun [] E).
  - rewrite Hem. unfold greedy_function, greedy_body. rewrite forallb_negb.
    now destruct (existsb is_fund_transfer body && negb (existsb has_conditional body)).
Qed.

Lemma analyze_unchecked_external_calls_visit_count :
  completes (analyze_unchecked_external_calls_visit p) /\
  List.length (emitted (analyze_unchecked_external_calls_visit p))
  = unchecked_calls (self p).
Proof.
  unfold analyze_unchecked_external_calls_visit, unchecked_calls.
  destruct (self p) as [| | | | | | | | |fl fnm fargs fbl body| | | | | | |] eqn:E;
    try (split; [apply completes_ret | reflexivity]).
  destruct fnm as [| | | | | | | | | | |nl id| | | | |]; try discriminate.
  assert (C : forall n : node,
            completes
              (when (Unchecked.is_external_call n)
                 (fname <- attr_id (Name nl id) ;;
                  add_vulnerability "Unchecked External Calls"
                    ("Unchecked external call detected in function '" ++ fname ++ "'.")
                    "unchecked_external_call" "medium"
                    (get_line_number (child (body_of p fbl body) n))))).
  { intro n. apply completes_when. apply completes_add. }
  split; [apply completes_for_each, C|].
  rewrite (emitted_for_each _ _ C).
  rewrite <- (length_singletons Unchecked.is_external_call
                (fun n => mkFinding "Unchecked External Calls"
                    ("Unchecked external call detected in function '" ++ id ++ "'.")
                    "unchecked_external_call" "medium"
                    (get_line_number (child (body_of p fbl body) n)))).
  f_equal. apply flat_map_ext. intro n. rewrite emitted_when.
  now destruct (Unchecked.is_external_call n).
Qed.

Lemma analyze_another_example_count :
  completes (analyze_another_example p) /\
  List.length (emitted (analyze_another_example p)) = returned_literals (self p).
Proof.
  unfold analyze_another_example, returned_literals.
  destruct (self p) as [| | | | | | | | |fl fnm fargs fbl body| | | | | | |] eqn:E;
    try (split; [apply completes_ret | reflexivity]).
  destruct fnm as [| | | | | | | | | | |nl id| | | | |]; try discriminate.
  change (attr_id (Name nl id)) with (@ret string id).
  match goal with |- completes (bind (ret id) ?k) /\ _ =>
    change (bind (ret id) k) with (k id)
  end.
  cbv beta.
  split; [completer|].
  rewrite emitted_when. destruct (id =? "another_example"); [|reflexivity].
  rewrite emitted_for_each by (intro; completer).
  rewrite length_flat_map_total. apply total_ext_in. intros s _.
  destruct s as [| | | | | | |rl values| | | | | | | | |]; try reflexivity.
  rewrite emitted_for_each by (intro; completer).
  rewrite <- (length_singletons overflowing_number
                (fun v => overflow_finding
                   ("Potential integer overflow/underflow detected in return statement of function '"
                      ++ id ++ "'.")
                   (get_line_number
                      (child (child (body_of p fbl body) (Return rl values)) v)))).
  f_equal. apply flat_map_ext. intro v. rewrite emitted_when.
  now destruct (overflowing_number v).
Qed.

Lemma analyze_function_body_count :
  List.length (emitted (analyze_function_body p)) = body_sum overflow_literals (self p).
Proof.
  unfold analyze_function_body, body_sum.
  destruct (self p) as [| | | | | | | | |fl fnm fargs fbl body| | | | | | |];
    try reflexivity.
  rewrite emitted_for_each by apply analyze_overflow_in_node_completes.
  rewrite length_flat_map_total.
  rewrite (total_ext_in _ (fun q => overflow_literals (self q)))
    by (intros q _; apply analyze_overflow_in_node_count).
  apply sum_nodes_walk.
Qed.

Lemma analyze_overflow_and_return_visit_count :
  completes (analyze_overflow_and_return_visit p) /\
  List.length (emitted (analyze_overflow_and_return_visit p))
  = overflow_literals (self p) + body_sum overflow_literals (self p)
    + returned_literals (self p).
Proof.
  unfold analyze_overflow_and_return_visit.
  pose proof (analyze_overflow_in_node_completes p) as C1.
  pose proof (analyze_function_body_completes p) as C2.
  destruct analyze_another_example_count as [C3 L3].
  assert (C23 : completes (analyze_function_body p ;; analyze_another_example p))
    by (apply completes_bind; auto).
  split; [apply completes_bind; auto|].
  rewrite emitted_seq by (auto; apply C23).
  rewrite emitted_seq by (auto; apply C3).
  rewrite !length_app, analyze_overflow_in_node_count, analyze_function_body_count, L3.
  lia.
Qed.

End NamedVisits.

(** ** The rules on a tree whose functions are named *)

Lemma functions_named_in (code : node) (p : pyobj) :
  functions_named code = true -> In p (walk (parse code)) ->
  named_function (self p) = true.
Proof.
  unfold functions_named. rewrite forallb_forall. intros H Hin. now apply H.
Qed.

Lemma named_rule (visit : pyobj -> M unit) (g : node -> nat) (code : node) :
  functions_named code = true ->
  (forall p, appends (visit p)) ->
  (forall p, named_function (self p) = true ->
             completes (visit p) /\ List.length (emitted (visit p)) = g (self p)) ->
  completes (for_each (walk (parse code)) visit) /\
  List.length (emitted (for_each (walk (parse code)) visit))
  = total g (map self (walk (parse code))).
Proof.
  intros Hn Ha Hv.
  destruct (for_each_ok (walk (parse code)) visit Ha) as [O E].
  { intros p Hp. apply Hv. now apply (functions_named_in code). }
  split; [split; [now apply appends_for_each | assumption]|].
  rewrite E, length_flat_map_total, total_map.
  apply total_ext_in. intros p Hp. apply Hv. now apply (functions_named_in code).
Qed.

Lemma total_bool_count {A} (P : A -> bool) (xs : list A) :
  total (fun x => bool_to_nat (P x)) xs = count P xs.
Proof. symmetry. apply count_total. Qed.

(** A single call of external_call in a statement list: the pairs are the
    assignments after it. *)
Lemma call_then_assign_none (body : list node) :
  (forall s, In s body -> is_external_call s = false) -> call_then_assign body = 0.
Proof.
  induction body as [|s body IH]; intros H; [reflexivity|].
  cbn [call_then_assign]. rewrite (H s (in_eq _ _)), IH; [reflexivity|].
  intros t Ht. apply H. now right.
Qed.

Lemma call_then_assign_single (pre : list node) (c : node) (post : list node) :
  is_external_call c = true ->
  (forall s, In s pre \/ In s post -> is_external_call s = false) ->
  call_then_assign (pre ++ c :: post) = count has_state_change post.
Proof.
  intros Hc H. induction pre as [|s pre IH].
  - cbn [app call_then_assign]. rewrite Hc, call_then_assign_none; [lia|].
    intros s Hs. apply H. now right.
  - cbn [app call_then_assign]. rewrite (H s (or_introl (in_eq _ _))).
    apply IH. intros t [Ht|Ht]; apply H; [left; now right | now right].
Qed.

Lemma complete_rule (visit : pyobj -> M unit) (g : node -> nat) (code : node) :
  (forall p, completes (visit p)) ->
  (forall p, List.length (emitted (visit p)) = g (self p)) ->
  List.length (emitted (for_each (walk (parse code)) visit))
  = total g (map self (walk (parse code))).
Proof.
  intros Hc Hl.
  rewrite (emitted_for_each _ _ Hc), length_flat_map_total, total_map.
  apply total_ext_in. intros p _. apply Hl.
Qed.

Lemma total_none {A} (f : A -> nat) (xs : list A) :
  (forall x, In x xs -> f x = 0) -> total f xs = 0.
Proof.
  intros H. rewrite (total_ext_in f (fun _ => 0) xs H). clear H.
  unfold total. induction xs as [|x xs IH]; [reflexivity|exact IH].
Qed.

(** C1, as the code has it.  The number of findings a rule appends is the
    number of violation instances in the tree: one per Function for Missing
    Return and Greedy/Suicidal (so at most one per function), one per
    matching target of an Assign or LocalAssign for Private Key Exposure, one
    per matching call or statement for Floating Pragma, Denial of Service and
    Unchecked External Call, one per pair of an external_call call and a
    later Assign or LocalAssign for Reentrancy.  Integer Overflow/Underflow
    is the exception: an out-of-range operand, LocalAssign value or parameter
    is reported once for the walk of the tree and once more for every
    Function body around the node that holds it ([1 + d] times at depth
    [d]), next to one finding per out-of-range value of a direct Return of a
    function named another_example.  For the three rules that read the name
    of a function, this is on a tree whose Function nodes are all named by a
    Name node, on which the whole scan ends normally.  In particular a tree
    whose only out-of-range literal is held by a node in [d] Function bodies
    gives exactly [1 + d] overflow findings: two equal ones for a literal
    assigned in the body of a top-level function, three for one assigned in
    the body of a function nested in the body of a top-level function; and
    a statement list with a single external_call call gives one Reentrancy
    finding per Assign or LocalAssign after the call. *)
Theorem findings_per_violation_instance :
  (forall code,
     let nodes := map self (walk (parse code)) in
     List.length (emitted (analyze_return code)) = count lacks_direct_return nodes /\
     List.length (emitted (check_private_key_exposure code))
       = total private_key_targets nodes /\
     List.length (emitted (analyze_reentrancy code)) = total reentrancy_instances nodes /\
     List.length (emitted (analyze_floating_pragma code)) = count deprecated_call nodes /\
     List.length (emitted (analyze_denial_of_service code)) = count expensive_call nodes /\
     map snd (walk_depth 0 code) = nodes /\
     (functions_named code = true ->
      outcome (scan code) = Ok tt /\
      List.length (emitted (analyze_greedy_suicidal_functions code))
        = count greedy_function nodes /\
      List.length (emitted (analyze_unchecked_external_calls code))
        = total unchecked_calls nodes /\
      List.length (emitted (analyze_overflow_and_return code))
        = total (fun dn => (1 + fst dn) * overflow_literals (snd dn)) (walk_depth 0 code)
          + total returned_literals nodes)) /\
  (forall code pre d n post,
     functions_named code = true ->
     walk_depth 0 code = pre ++ (d, n) :: post ->
     overflow_literals n = 1 ->
     (forall dm, In dm pre \/ In dm post -> overflow_literals (snd dm) = 0) ->
     (forall dm, In dm (walk_depth 0 code) -> returned_literals (snd dm) = 0) ->
     List.length (emitted (analyze_overflow_and_return code)) = 1 + d) /\
  (forall cl bl fl nl fname fbl al xl x vl n,
     (n >= 2147483647 \/ n <= -2147483648)%Z ->
     exists f,
       emitted (analyze_overflow_and_return
         (Chunk cl (Block bl
            [Function fl (Name nl fname) [] fbl
               [LocalAssign al [Name xl x] [Number vl n]]])))
       = [f; f] /\
       name f = "Integer Overflow/Underflow" /\ severity f = "high") /\
  (forall cl bl fl nl fname fbl gl gnl gname gbl al xl x vl n,
     (n >= 2147483647 \/ n <= -2147483648)%Z ->
     exists f,
       emitted (analyze_overflow_and_return
         (Chunk cl (Block bl
            [Function fl (Name nl fname) [] fbl
               [Function gl (Name gnl gname) [] gbl
                  [LocalAssign al [Name xl x] [Number vl n]]]])))
       = [f; f; f] /\
       name f = "Integer Overflow/Underflow" /\ severity f = "high") /\
  (forall p l nm args bl pre c post,
     self p = Function l nm args bl (pre ++ c :: post) ->
     is_external_call c = true ->
     (forall s, In s pre \/ In s post -> is_external_call s = false) ->
     emitted (analyze_reentrancy_visit p)
     = repeat (reentrancy_finding (get_line_number p)) (count has_state_change post)).
Proof.
  assert (Hall : forall code,
     let nodes := map self (walk (parse code)) in
     List.length (emitted (analyze_return code)) = count lacks_direct_return nodes /\
     List.length (emitted (check_private_key_exposure code))
       = total private_key_targets nodes /\
     List.length (emitted (analyze_reentrancy code)) = total reentrancy_instances nodes /\
     List.length (emitted (analyze_floating_pragma code)) = count deprecated_call nodes /\
     List.length (emitted (analyze_denial_of_service code)) = count expensive_call nodes /\
     map snd (walk_depth 0 code) = nodes /\
     (functions_named code = true ->
      outcome (scan code) = Ok tt /\
      List.length (emitted (analyze_greedy_suicidal_functions code))
        = count greedy_function nodes /\
      List.length (emitted (analyze_unchecked_external_calls code))
        = total unchecked_calls nodes /\
      List.length (emitted (analyze_overflow_and_return code))
        = total (fun dn => (1 + fst dn) * overflow_literals (snd dn)) (walk_depth 0 code)
          + total returned_literals nodes)).
  { intros code nodes.
    pose proof (complete_rule analyze_return_visit
                  (fun n => bool_to_nat (lacks_direct_return n)) code
                  analyze_return_visit_completes analyze_return_visit_count) as L1.
    pose proof (complete_rule analyze_reentrancy_visit reentrancy_instances code
                  analyze_reentrancy_visit_completes analyze_reentrancy_visit_count) as L3.
    pose proof (complete_rule check_private_key_exposure_visit private_key_targets code
                  check_private_key_exposure_visit_completes
                  check_private_key_exposure_visit_count) as L4.
    pose proof (complete_rule analyze_floating_pragma_visit
                  (fun n => bool_to_nat (deprecated_call n)) code
                  analyze_floating_pragma_visit_completes
                  analyze_floating_pragma_visit_count) as L5.
    pose proof (complete_rule analyze_denial_of_service_visit
                  (fun n => bool_to_nat (expensive_call n)) code
                  analyze_denial_of_service_visit_completes
                  analyze_denial_of_service_visit_count) as L6.
    fold nodes in L1, L3, L4, L5, L6.
    rewrite total_bool_count in L1, L5, L6.
    assert (Hnodes : map snd (walk_depth 0 code) = nodes).
    { symmetry. apply (walk_nodes code None 0). }
    repeat (split; [assumption|]).
    intros Hn.
    destruct (named_rule analyze_overflow_and_return_visit
                (fun n => overflow_literals n + body_sum overflow_literals n
                          + returned_literals n) code Hn) as [C2 L2].
    { apply analyze_overflow_and_return_visit_appends. }
    { apply analyze_overflow_and_return_visit_count. }
    destruct (named_rule analyze_unchecked_external_calls_visit unchecked_calls code Hn)
      as [C7 L7].
    { apply analyze_unchecked_external_calls_visit_appends. }
    { apply analyze_unchecked_external_calls_visit_count. }
    destruct (named_rule analyze_greedy_suicidal_functions_visit
                (fun n => bool_to_nat (greedy_function n)) code Hn) as [C8 L8].
    { apply analyze_greedy_suicidal_functions_visit_appends. }
    { apply analyze_greedy_suicidal_functions_visit_count. }
    fold nodes in L2, L7, L8.
    rewrite total_bool_count in L8.
    repeat split; try assumption.
    + assert (C : completes (scan code)); [|apply C].
      unfold scan.
      repeat (apply completes_bind; [|intro]);
        first [ assumption
              | apply completes_for_each;
                first [ apply analyze_return_visit_completes
                      | apply analyze_reentrancy_visit_completes
                      | apply check_private_key_exposure_visit_completes
                      | apply analyze_floating_pragma_visit_completes
                      | apply analyze_denial_of_service_visit_completes ] ].
    + unfold analyze_overflow_and_return. rewrite L2.
      rewrite !total_add.
      rewrite (total_ext_in (fun dn => (1 + fst dn) * overflow_literals (snd dn))
                 (fun dn => overflow_literals (snd dn)
                            + fst dn * overflow_literals (snd dn)))
        by (intros dn _; lia).
      rewrite total_add, depth_sum.
      rewrite <- Hnodes, !total_map. fold (sum_nodes overflow_literals code).
      fold (sum_nodes (body_sum overflow_literals) code). lia. }
  split; [exact Hall|]. split; [|split; [|split]].
  - intros code pre d n post Hn Hw H1 H0 Hr.
    destruct (Hall code) as (_ & _ & _ & _ & _ & Hnodes & Hnamed).
    destruct (Hnamed Hn) as (_ & _ & _ & ->).
    rewrite <- Hnodes, total_map, (total_none _ _ Hr).
    rewrite Hw, total_app, total_cons. cbn [fst snd]. rewrite H1.
    rewrite !total_none; [lia| |].
    + intros dm Hdm. rewrite (H0 dm (or_intror Hdm)). lia.
    + intros dm Hdm. rewrite (H0 dm (or_introl Hdm)). lia.
  - intros cl bl fl nl fname fbl al xl x vl n Hn.
    apply is_potential_overflow_true in Hn.
    set (fn := Function fl (Name nl fname) [] fbl
                 [LocalAssign al [Name xl x] [Number vl n]]).
    set (root := parse (Chunk cl (Block bl [fn]))).
    set (fo := child (child root (Block bl [fn])) fn).
    set (la := child (body_of fo fbl [LocalAssign al [Name xl x] [Number vl n]])
                     (LocalAssign al [Name xl x] [Number vl n])).
    exists (overflow_finding
              "Potential integer overflow/underflow detected with local variable assignment."
              (get_line_number (child la (Number vl n)))).
    split; [|split; reflexivity].
    unfold emitted, analyze_overflow_and_return.
    cbv -[String.eqb String.append get_line_number is_potential_overflow].
    rewrite Hn. now destruct (fname =? "another_example").
  - intros cl bl fl nl fname fbl gl gnl gname gbl al xl x vl n Hn.
    apply is_potential_overflow_true in Hn.
    set (la := LocalAssign al [Name xl x] [Number vl n]).
    set (gn := Function gl (Name gnl gname) [] gbl [la]).
    set (fn := Function fl (Name nl fname) [] fbl [gn]).
    set (root := parse (Chunk cl (Block bl [fn]))).
    set (fo := child (child root (Block bl [fn])) fn).
    set (go := child (body_of fo fbl [gn]) gn).
    set (lo := child (body_of go gbl [la]) la).
    exists (overflow_finding
              "Potential integer overflow/underflow detected with local variable assignment."
              (get_line_number (child lo (Number vl n)))).
    split; [|split; reflexivity].
    unfold emitted, analyze_overflow_and_return.
    cbv -[String.eqb String.append get_line_number is_potential_overflow].
    rewrite Hn.
    now destruct (fname =? "another_example"), (gname =? "another_example").
  - intros p l nm args bl pre c post E Hc Hs.
    rewrite analyze_reentrancy_visit_emitted, E.
    now rewrite call_then_assign_single.
Qed.

Lemma findings_per_violation_instance_witness :
  let code :=
    Chunk None (Block None
      [Function (Some 1%Z) (Name (Some 1%Z) "deposit") [Name (Some 1%Z) "amount"] (Some 1%Z)
         [LocalAssign (Some 2%Z) [Name (Some 2%Z) "cap"] [Number (Some 2%Z) 2147483647%Z];
          Call (Some 3%Z) (Name (Some 3%Z) "external_call") [Name (Some 3%Z) "amount"];
          Assign (Some 4%Z) [Name (Some 4%Z) "balance"] [Name (Some 4%Z) "cap"];
          LocalAssign (Some 5%Z) [Name (Some 5%Z) "api_key"] [Name (Some 5%Z) "cap"]]]) in
  let inner :=
    LocalAssign (Some 3%Z) [Name (Some 3%Z) "x"] [Number (Some 3%Z) (-2147483648)%Z] in
  let nested :=
    Chunk None (Block None
      [Function (Some 1%Z) (Name (Some 1%Z) "outer") [] (Some 1%Z)
         [Function (Some 2%Z) (Name (Some 2%Z) "inner") [] (Some 2%Z) [inner]]]) in
  List.length (emitted (analyze_overflow_and_return code)) = 2 /\
  List.length (emitted (analyze_reentrancy code)) = 2 /\
  List.length (emitted (analyze_return code)) = 1 /\
  List.length (emitted (check_private_key_exposure code)) = 1 /\
  List.length (emitted (analyze_overflow_and_return nested)) = 1 + 2.
Proof.
  intros code inner nested.
  destruct (proj1 findings_per_violation_instance code)
    as (Hr & Hp & Hre & _ & _ & _ & Hnamed).
  destruct (Hnamed eq_refl) as (_ & _ & _ & Ho).
  rewrite Ho, Hre, Hr, Hp.
  split; [reflexivity|]. split; [reflexivity|]. split; [reflexivity|].
  split; [reflexivity|].
  apply (proj1 (proj2 findings_per_violation_instance) nested
           (firstn 8 (walk_depth 0 nested)) 2 inner (skipn 9 (walk_depth 0 nested)));
    [reflexivity | reflexivity | reflexivity | |].
  - intros dm [H|H]; simpl in H;
      repeat (destruct H as [<-|H]; [reflexivity|]); contradiction.
  - intros dm H. simpl in H.
    repeat (destruct H as [<-|H]; [reflexivity|]). contradiction.
Defined.

(** C1 as stated fails on [function f() local x = 2147483647 end]: the tree
    holds one out-of-range literal, in a function body, and the overflow rule
    appends two findings for it, both of which the scan keeps. *)
Lemma one_finding_per_overflow_literal_fails :
  let code :=
    Chunk None (Block None
      [Function (Some 1%Z) (Name (Some 1%Z) "f") [] (Some 1%Z)
         [LocalAssign (Some 1%Z) [Name (Some 1%Z) "x"]
            [Number (Some 1%Z) 2147483647%Z]]]) in
  total overflow_literals (map self (walk (parse code))) = 1 /\
  List.length (emitted (analyze_overflow_and_return code)) = 2 /\
  List.length (emitted (analyze_overflow_and_return code)) <> 1 /\
  count (fun f => name f =? "Integer Overflow/Underflow") (snd (scan code [])) = 2.
Proof.
  intros code. repeat split; try reflexivity. discriminate.
Qed.

(** * Further properties of the rules *)

(** A loop ends normally exactly when every turn does. *)
Lemma for_each_outcome_ok {A} (xs : list A) (body : A -> M unit) :
  (forall y, appends (body y)) ->
  outcome (for_each xs body) = Ok tt <->
  (forall x, In x xs -> outcome (body x) = Ok tt).
Proof.
  intros HA. split.
  - induction xs as [|x xs IH]; intros H y Hy; [contradiction|].
    simpl for_each in H.
    destruct (outcome (body x)) as [[]|e] eqn:Ox.
    + destruct (bind_ok (body x) (fun _ => for_each xs body) tt
                  (HA x) (appends_for_each _ _ HA) Ox) as [O _].
      rewrite O in H. destruct Hy as [<-|Hy]; auto.
    + destruct (bind_raise (body x) (fun _ => for_each xs body) e (HA x) Ox) as [O _].
      congruence.
  - intros H. now apply for_each_ok.
Qed.

(** ** Floating Pragma and Denial of Service *)

(** X1.  The Floating Pragma rule never raises and appends, node by node in
    walk order, exactly one low-severity finding, at the resolved line of
    the call, for every Call whose callee is a Name spelled exactly setfenv
    or getfenv; any other callee name (the match is case-sensitive), a callee
    that is no Name (such as [debug.setfenv]) and any node that is no Call
    give nothing. *)
Theorem analyze_floating_pragma_exact_callee (code : node) (vs : list Finding) :
  exists per_node : pyobj -> list Finding,
    analyze_floating_pragma code vs
      = (Ok tt, vs ++ flat_map per_node (walk (parse code))) /\
    forall p,
      (forall l nl id xs,
         self p = Call l (Name nl id) xs ->
         (id = "setfenv" \/ id = "getfenv" ->
          per_node p = [floating_pragma_finding id (get_line_number p)]) /\
         (id <> "setfenv" -> id <> "getfenv" -> per_node p = [])) /\
      (forall l nl xs, self p = Call l (Name nl "SetFEnv") xs -> per_node p = []) /\
      (forall l f xs,
         self p = Call l f xs -> (forall nl id, f <> Name nl id) -> per_node p = []) /\
      ((forall l f xs, self p <> Call l f xs) -> per_node p = []).
Proof.
  exists (fun p => emitted (analyze_floating_pragma_visit p)). split.
  - apply rule_completes, analyze_floating_pragma_visit_completes.
  - intros p. unfold analyze_floating_pragma_visit.
    split; [|split; [|split]].
    + intros l nl id xs E. rewrite E, emitted_when. split.
      * intros H.
        assert (Hw : in_words id deprecated_functions = true).
        { apply in_words_In. destruct H as [->| ->]; simpl; auto. }
        now rewrite Hw.
      * intros H1 H2.
        assert (Hw : in_words id deprecated_functions = false).
        { apply in_words_not_In. intros [H|[H|[]]]; congruence. }
        now rewrite Hw.
    + intros l nl xs E. now rewrite E.
    + intros l f xs E Hf. rewrite E.
      destruct f as [| | | | | | | | | | |nl id| | | | |]; try reflexivity.
      now elim (Hf nl id).
    + intros H.
      destruct (self p) as [| | | | | | | |cl f xs| | | | | | | |] eqn:E;
        try reflexivity.
      now elim (H cl f xs).
Qed.

Lemma analyze_floating_pragma_exact_callee_witness :
  analyze_floating_pragma
    (Chunk None (Block None
       [Call (Some 1%Z) (Name (Some 1%Z) "setfenv") [Number (Some 1%Z) 1%Z];
        Call (Some 2%Z) (Name (Some 2%Z) "print") []])) []
  = (Ok tt, [floating_pragma_finding "setfenv" (Some 1%Z)]).
Proof.
  match goal with |- analyze_floating_pragma ?c _ = _ =>
    destruct (analyze_floating_pragma_exact_callee c []) as (per_node & Hrun & Hn)
  end.
  rewrite Hrun. cbn [walk parse self parent walk_from flat_map app].
  repeat match goal with
  | |- context [per_node (Obj (Call ?l (Name ?nl "setfenv") ?xs) ?up)] =>
      destruct (Hn (Obj (Call l (Name nl "setfenv") xs) up)) as (H & _);
      destruct (H l nl "setfenv" xs eq_refl) as (H1 & _);
      rewrite (H1 (or_introl eq_refl)); clear H H1
  | |- context [per_node (Obj (Call ?l (Name ?nl "print") ?xs) ?up)] =>
      destruct (Hn (Obj (Call l (Name nl "print") xs) up)) as (H & _);
      destruct (H l nl "print" xs eq_refl) as (_ & H1);
      rewrite H1 by discriminate; clear H H1
  | |- context [per_node ?p] =>
      let H := fresh in
      destruct (Hn p) as (_ & _ & _ & H);
      rewrite H by (simpl; discriminate); clear H
  end.
  reflexivity.
Defined.

(** X2.  The Denial of Service rule never raises and appends, node by node in
    walk order, exactly one medium-severity finding, at the resolved line of
    the call, for every Call whose callee is a Name spelled exactly
    perform_expensive_operation, and nothing for any other node. *)
Theorem analyze_denial_of_service_exact_callee (code : node) (vs : list Finding) :
  exists per_node : pyobj -> list Finding,
    analyze_denial_of_service code vs
      = (Ok tt, vs ++ flat_map per_node (walk (parse code))) /\
    forall p,
      (forall l nl xs,
         self p = Call l (Name nl "perform_expensive_operation") xs ->
         per_node p
         = [denial_of_service_finding "perform_expensive_operation" (get_line_number p)]) /\
      (forall l nl id xs,
         self p = Call l (Name nl id) xs ->
         id <> "perform_expensive_operation" -> per_node p = []) /\
      (forall l f xs,
         self p = Call l f xs -> (forall nl id, f <> Name nl id) -> per_node p = []) /\
      ((forall l f xs, self p <> Call l f xs) -> per_node p = []).
Proof.
  exists (fun p => emitted (analyze_denial_of_service_visit p)). split.
  - apply rule_completes, analyze_denial_of_service_visit_completes.
  - intros p. unfold analyze_denial_of_service_visit.
    split; [|split; [|split]].
    + intros l nl xs E. now rewrite E.
    + intros l nl id xs E H. rewrite E, emitted_when.
      apply String.eqb_neq in H. now rewrite H.
    + intros l f xs E Hf. rewrite E.
      destruct f as [| | | | | | | | | | |nl id| | | | |]; try reflexivity.
      now elim (Hf nl id).
    + intros H.
      destruct (self p) as [| | | | | | | |cl f xs| | | | | | | |] eqn:E;
        try reflexivity.
      now elim (H cl f xs).
Qed.

Lemma analyze_denial_of_service_exact_callee_witness :
  analyze_denial_of_service
    (Chunk None (Block None
       [Call (Some 4%Z) (Name (Some 4%Z) "perform_expensive_operation") []])) []
  = (Ok tt, [denial_of_service_finding "perform_expensive_operation" (Some 4%Z)]).
Proof.
  match goal with |- analyze_denial_of_service ?c _ = _ =>
    destruct (analyze_denial_of_service_exact_callee c []) as (per_node & Hrun & Hn)
  end.
  rewrite Hrun. cbn [walk parse self parent walk_from flat_map app].
  repeat match goal with
  | |- context [per_node (Obj (Call ?l (Name ?nl ?id) ?xs) ?up)] =>
      destruct (Hn (Obj (Call l (Name nl id) xs) up)) as (H & _);
      rewrite (H l nl xs eq_refl); clear H
  | |- context [per_node ?p] =>
      let H := fresh in
      destruct (Hn p) as (_ & _ & _ & H);
      rewrite H by (simpl; discriminate); clear H
  end.
  reflexivity.
Defined.

(** ** Unchecked External Calls *)

Lemma analyze_unchecked_external_calls_visit_named
      (p : pyobj) (l nl : option Z) (id : string) (args : list node)
      (bl : option Z) (body : list node) (vs : list Finding) :
  self p = Function l (Name nl id) args bl body ->
  analyze_unchecked_external_calls_visit p vs
  = (Ok tt, vs ++ flat_map (unchecked_statement p bl body id) body).
Proof.
  intros E. unfold analyze_unchecked_external_calls_visit. rewrite E.
  assert (C : forall n : node,
            completes
              (when (Unchecked.is_external_call n)
                 (fname <- attr_id (Name nl id) ;;
                  add_vulnerability "Unchecked External Calls"
                    ("Unchecked external call detected in function '" ++ fname ++ "'.")
                    "unchecked_external_call" "medium"
                    (get_line_number (child (body_of p bl body) n))))).
  { intro n. apply completes_when. apply completes_add. }
  rewrite (completes_run _ vs (completes_for_each _ _ C)).
  rewrite (emitted_for_each _ _ C). do 2 f_equal.
  apply flat_map_ext. intro n. rewrite emitted_when. unfold unchecked_statement.
  now destruct (Unchecked.is_external_call n).
Qed.

(** X3.  In a Function named by a Name, the Unchecked External Calls check
    appends, in statement order, one medium-severity finding for each direct
    statement that is a call through an Index of a Name ([obj.method(...)]),
    carrying the function's name and the resolved line of that statement (not
    of the function); a call of a plain Name, a call through a longer chain
    ([a.b.c(...)], an Index of an Index) and any statement that is no Call
    give nothing. *)
Theorem analyze_unchecked_external_calls_direct_statements
        (p : pyobj) (l nl : option Z) (id : string) (args : list node)
        (bl : option Z) (body : list node) (vs : list Finding) :
  self p = Function l (Name nl id) args bl body ->
  exists per_statement : node -> list Finding,
    analyze_unchecked_external_calls_visit p vs
      = (Ok tt, vs ++ flat_map per_statement body) /\
    (forall cl il idx vl v xs,
       per_statement (Call cl (Index il idx (Name vl v)) xs)
       = [unchecked_finding id
            (get_line_number
               (child (body_of p bl body) (Call cl (Index il idx (Name vl v)) xs)))]) /\
    (forall cl fl f xs, per_statement (Call cl (Name fl f) xs) = []) /\
    (forall cl il idx il' idx' w xs,
       per_statement (Call cl (Index il idx (Index il' idx' w)) xs) = []) /\
    (forall n, (forall cl f xs, n <> Call cl f xs) -> per_statement n = []).
Proof.
  intros E. exists (unchecked_statement p bl body id).
  split; [now apply (analyze_unchecked_external_calls_visit_named p l nl id args)|].
  repeat split.
  intros n H. unfold unchecked_statement.
  destruct n as [| | | | | | | |cl f xs| | | | | | | |]; try reflexivity.
  now elim (H cl f xs).
Qed.

Lemma analyze_unchecked_external_calls_direct_statements_witness :
  let stmt := Call (Some 2%Z)
                (Index (Some 2%Z) (Name (Some 2%Z) "send") (Name (Some 2%Z) "wallet")) [] in
  let f := Function (Some 1%Z) (Name (Some 1%Z) "pay_out") [] (Some 1%Z)
             [stmt; Call (Some 3%Z) (Name (Some 3%Z) "log") []] in
  analyze_unchecked_external_calls_visit (Obj f None) []
  = (Ok tt, [unchecked_finding "pay_out" (Some 2%Z)]).
Proof.
  intros stmt f.
  destruct (analyze_unchecked_external_calls_direct_statements
              (Obj f None) (Some 1%Z) (Some 1%Z) "pay_out" [] (Some 1%Z)
              [stmt; Call (Some 3%Z) (Name (Some 3%Z) "log") []] [] eq_refl)
    as (per_statement & Hrun & Hidx & Hname & _).
  rewrite Hrun. cbn [flat_map app]. unfold stmt. rewrite Hidx, Hname. reflexivity.
Defined.

Lemma flat_map_all_nil {A B} (f : A -> list B) (xs : list A) :
  (forall x, In x xs -> f x = []) -> flat_map f xs = [].
Proof.
  induction xs as [|x xs IH]; intros H; [reflexivity|].
  simpl. rewrite (H x (in_eq _ _)), IH; [reflexivity|].
  intros y Hy. apply H. now right.
Qed.

Lemma existsb_split {A} (P : A -> bool) (xs : list A) :
  existsb P xs = true ->
  exists pre x post,
    xs = pre ++ x :: post /\ P x = true /\ forall y, In y pre -> P y = false.
Proof.
  induction xs as [|x xs IH]; [discriminate|].
  simpl. destruct (P x) eqn:Px.
  - intros _. exists [], x, xs. repeat split; auto. intros y [].
  - intros H. destruct (IH H) as (pre & y & post & -> & Py & Hpre).
    exists (x :: pre), y, post. repeat split; auto.
    intros z [<-|Hz]; auto.
Qed.

(** The outcome of the visit of a Function node whose name is no Name. *)
Lemma analyze_unchecked_external_calls_visit_unnamed
      (p : pyobj) (l : option Z) (nm : node) (args : list node)
      (bl : option Z) (body : list node) (vs : list Finding) :
  self p = Function l nm args bl body ->
  (forall nl id, nm <> Name nl id) ->
  analyze_unchecked_external_calls_visit p vs
  = (if existsb Unchecked.is_external_call body
     then Raise (AttributeError "id") else Ok tt, vs).
Proof.
  intros E Hnm.
  pose proof (analyze_unchecked_external_calls_visit_appends p) as Ha.
  rewrite (Ha vs).
  unfold analyze_unchecked_external_calls_visit in *. rewrite E in *.
  set (visit := fun n : node =>
         when (Unchecked.is_external_call n)
           (fname <- attr_id nm ;;
            add_vulnerability "Unchecked External Calls"
              ("Unchecked external call detected in function '" ++ fname ++ "'.")
              "unchecked_external_call" "medium"
              (get_line_number (child (body_of p bl body) n)))) in *.
  assert (Hv : forall n, appends (visit n)) by (intro n; unfold visit; appender).
  assert (Hraise : forall n, Unchecked.is_external_call n = true ->
                    outcome (visit n) = Raise (AttributeError "id")
                    /\ emitted (visit n) = []).
  { intros n Hn. unfold visit. rewrite Hn.
    destruct nm as [| | | | | | | | | | |nl id| | | | |]; try (split; reflexivity).
    now elim (Hnm nl id). }
  assert (Hskip : forall n, Unchecked.is_external_call n = false ->
                   outcome (visit n) = Ok tt /\ emitted (visit n) = []).
  { intros n Hn. unfold visit. rewrite Hn. split; reflexivity. }
  destruct (existsb Unchecked.is_external_call body) eqn:Ex.
  - destruct (existsb_split _ _ Ex) as (pre & x & post & -> & Px & Hpre).
    destruct (for_each_raises pre x post visit (AttributeError "id") Hv) as [O Em].
    { intros y Hy. now apply Hskip, Hpre. }
    { now apply Hraise. }
    rewrite O, Em. rewrite (proj2 (Hraise x Px)), app_nil_r.
    replace (flat_map (fun y => emitted (visit y)) pre) with (@nil Finding).
    + now rewrite app_nil_r.
    + symmetry. apply flat_map_all_nil.
      intros y Hy. now apply Hskip, Hpre.
  - assert (Hall : forall n, In n body -> Unchecked.is_external_call n = false).
    { intros n Hn. destruct (Unchecked.is_external_call n) eqn:En; [|reflexivity].
      assert (existsb Unchecked.is_external_call body = true)
        by (apply existsb_exists; eauto).
      congruence. }
    destruct (for_each_ok body visit Hv) as [O Em].
    { intros n Hn. now apply Hskip, Hall. }
    rewrite O, Em.
    replace (flat_map (fun y => emitted (visit y)) body) with (@nil Finding).
    + now rewrite app_nil_r.
    + symmetry. apply flat_map_all_nil.
      intros y Hy. now apply Hskip, Hall.
Qed.

Lemma unchecked_is_external_call_spec (n : node) :
  Unchecked.is_external_call n = true <->
  exists cl il idx vl v xs, n = Call cl (Index il idx (Name vl v)) xs.
Proof.
  split.
  - destruct n as [| | | | | | | |cl f xs| | | | | | | |]; try discriminate.
    destruct f as [| | | | | | | | | | | |il idx w| | | |]; try discriminate.
    destruct w as [| | | | | | | | | | |vl v| | | | |]; try discriminate.
    intros _. now exists cl, il, idx, vl, v, xs.
  - intros (cl & il & idx & vl & v & xs & ->). reflexivity.
Qed.

Lemma existsb_unchecked (body : list node) :
  existsb Unchecked.is_external_call body = true <->
  exists cl il idx vl v xs, In (Call cl (Index il idx (Name vl v)) xs) body.
Proof.
  rewrite existsb_exists. split.
  - intros (n & Hin & Hn). apply unchecked_is_external_call_spec in Hn.
    destruct Hn as (cl & il & idx & vl & v & xs & ->).
    now exists cl, il, idx, vl, v, xs.
  - intros (cl & il & idx & vl & v & xs & Hin).
    exists (Call cl (Index il idx (Name vl v)) xs). split; [assumption|reflexivity].
Qed.

Lemma named_or_not (nm : node) :
  (exists nl id, nm = Name nl id) \/ (forall nl id, nm <> Name nl id).
Proof.
  destruct nm as [| | | | | | | | | | |nl id| | | | |];
    try (right; intros; discriminate).
  left. eauto.
Qed.

(** X4.  The Unchecked External Calls rule ends normally exactly when every
    Function node of the tree that has a call through an Index of a Name
    among its direct statements is named by a Name node.  On a Function node
    whose name is no Name (a dotted name, for one) the check raises
    AttributeError at the first such statement, before anything is appended;
    without such a statement it passes the function by. *)
Theorem analyze_unchecked_external_calls_needs_name :
  (forall code,
     outcome (analyze_unchecked_external_calls code) = Ok tt <->
     (forall p l nm args bl body cl il idx vl v xs,
        In p (walk (parse code)) ->
        self p = Function l nm args bl body ->
        In (Call cl (Index il idx (Name vl v)) xs) body ->
        exists nl id, nm = Name nl id)) /\
  (forall p l nm args bl body vs,
     self p = Function l nm args bl body ->
     (forall nl id, nm <> Name nl id) ->
     ((exists cl il idx vl v xs, In (Call cl (Index il idx (Name vl v)) xs) body) ->
      analyze_unchecked_external_calls_visit p vs = (Raise (AttributeError "id"), vs)) /\
     ((forall cl il idx vl v xs, ~ In (Call cl (Index il idx (Name vl v)) xs) body) ->
      analyze_unchecked_external_calls_visit p vs = (Ok tt, vs))).
Proof.
  split.
  - intros code. unfold analyze_unchecked_external_calls.
    rewrite (for_each_outcome_ok _ _ analyze_unchecked_external_calls_visit_appends).
    split.
    + intros H p l nm args bl body cl il idx vl v xs Hp E Hin.
      destruct (named_or_not nm) as [Hn|Hn]; [assumption|].
      specialize (H p Hp). unfold outcome in H.
      rewrite (analyze_unchecked_external_calls_visit_unnamed p l nm args bl body [] E Hn)
        in H.
      assert (Ex : existsb Unchecked.is_external_call body = true).
      { apply existsb_unchecked. now exists cl, il, idx, vl, v, xs. }
      rewrite Ex in H. discriminate.
    + intros H p Hp.
      destruct (self p) as [| | | | | | | | |fl fnm fargs fbl fbody| | | | | | |] eqn:E;
        try (unfold analyze_unchecked_external_calls_visit; now rewrite E).
      destruct (named_or_not fnm) as [(nl & id & ->)|Hn].
      * unfold outcome.
        now rewrite (analyze_unchecked_external_calls_visit_named
                       p fl nl id fargs fbl fbody [] E).
      * unfold outcome.
        rewrite (analyze_unchecked_external_calls_visit_unnamed
                   p fl fnm fargs fbl fbody [] E Hn).
        destruct (existsb Unchecked.is_external_call fbody) eqn:Ex; [|reflexivity].
        apply existsb_unchecked in Ex.
        destruct Ex as (cl & il & idx & vl & v & xs & Hin).
        destruct (H p fl fnm fargs fbl fbody cl il idx vl v xs Hp E Hin) as (nl & id & ->).
        now elim (Hn nl id).
  - intros p l nm args bl body vs E Hn.
    rewrite (analyze_unchecked_external_calls_visit_unnamed p l nm args bl body vs E Hn).
    split.
    + intros H. apply existsb_unchecked in H. now rewrite H.
    + intros H.
      destruct (existsb Unchecked.is_external_call body) eqn:Ex; [|reflexivity].
      apply existsb_unchecked in Ex.
      destruct Ex as (cl & il & idx & vl & v & xs & Hin).
      now elim (H cl il idx vl v xs).
Qed.

Lemma analyze_unchecked_external_calls_needs_name_witness :
  let stmt := Call (Some 2%Z)
                (Index (Some 2%Z) (Name (Some 2%Z) "send") (Name (Some 2%Z) "wallet")) [] in
  let f := Function (Some 1%Z)
             (Index (Some 1%Z) (Name (Some 1%Z) "pay_out") (Name (Some 1%Z) "M"))
             [] (Some 1%Z) [Call (Some 2%Z) (Name (Some 2%Z) "log") []; stmt] in
  analyze_unchecked_external_calls_visit (Obj f None) []
  = (Raise (AttributeError "id"), []).
Proof.
  intros stmt f.
  refine (proj1 (proj2 analyze_unchecked_external_calls_needs_name
                   (Obj f None) (Some 1%Z) _ [] (Some 1%Z) _ [] eq_refl _) _).
  - discriminate.
  - exists (Some 2%Z), (Some 2%Z), (Name (Some 2%Z) "send"), (Some 2%Z), "wallet", [].
    simpl. tauto.
Defined.

(** ** Greedy/Suicidal Functions, rule by rule *)

Lemma analyze_greedy_suicidal_functions_visit_outcome (p : pyobj) :
  outcome (analyze_greedy_suicidal_functions_visit p) =
    match self p with
    | Function _ (Name _ _) _ _ _ => Ok tt
    | Function _ _ _ _ body =>
        if greedy_body body then Raise (AttributeError "id") else Ok tt
    | _ => Ok tt
    end.
Proof.
  destruct (self p) as [| | | | | | | | |fl fnm fargs fbl fbody| | | | | | |] eqn:E;
    try (unfold analyze_greedy_suicidal_functions_visit; now rewrite E).
  destruct (named_or_not fnm) as [(nl & id & ->)|Hn].
  - unfold outcome.
    now rewrite (analyze_greedy_suicidal_functions_visit_named p fl nl id fargs fbl fbody [] E).
  - unfold outcome, analyze_greedy_suicidal_functions_visit. rewrite E.
    rewrite greedy_flags_eq. fold (greedy_body fbody).
    destruct (greedy_body fbody);
      destruct fnm as [| | | | | | | | | | |nl id| | | | |]; try reflexivity;
      now elim (Hn nl id).
Qed.

(** X5.  The Greedy/Suicidal rule ends normally exactly when every Function
    node of the tree whose direct statements hold a transfer call and no If
    or ElseIf is named by a Name node; a function that is not reported never
    makes it raise, whatever its name.  When it ends normally it has appended
    exactly one finding per such function, in walk order, and nothing else. *)
Theorem analyze_greedy_suicidal_functions_needs_name (code : node) :
  (outcome (analyze_greedy_suicidal_functions code) = Ok tt <->
   (forall p l nm args bl body,
      In p (walk (parse code)) ->
      self p = Function l nm args bl body ->
      (exists cl cnl cid xs,
         In (Call cl (Name cnl cid) xs) body /\
         In (lower cid) ["transfer"; "transfer_funds"; "transferfunds"; "send"; "pay"]) ->
      (forall il t b e, ~ In (If il t b e) body /\ ~ In (ElseIf il t b e) body) ->
      exists nl id, nm = Name nl id)) /\
  (outcome (analyze_greedy_suicidal_functions code) = Ok tt ->
   List.length (emitted (analyze_greedy_suicidal_functions code))
   = count greedy_function (map self (walk (parse code))) /\
   Forall (fun f => name f = "Greedy/Suicidal Functions" /\ severity f = "high")
          (emitted (analyze_greedy_suicidal_functions code))).
Proof.
  split.
  - unfold analyze_greedy_suicidal_functions.
    rewrite (for_each_outcome_ok _ _ analyze_greedy_suicidal_functions_visit_appends).
    split.
    + intros H p l nm args bl body Hp E Ht Hc.
      destruct (named_or_not nm) as [Hn|Hn]; [assumption|].
      specialize (H p Hp). rewrite analyze_greedy_suicidal_functions_visit_outcome, E in H.
      assert (Hb : greedy_body body = true) by (apply greedy_body_true; auto).
      rewrite Hb in H.
      destruct nm as [| | | | | | | | | | |nl id| | | | |]; try discriminate.
      now elim (Hn nl id).
    + intros H p Hp. rewrite analyze_greedy_suicidal_functions_visit_outcome.
      destruct (self p) as [| | | | | | | | |fl fnm fargs fbl fbody| | | | | | |] eqn:E;
        try reflexivity.
      destruct (greedy_body fbody) eqn:Hb;
        [|destruct fnm; reflexivity].
      apply greedy_body_true in Hb. destruct Hb as [Ht Hc].
      destruct (H p fl fnm fargs fbl fbody Hp E Ht Hc) as (nl & id & ->).
      reflexivity.
  - intros Hok. unfold analyze_greedy_suicidal_functions in *.
    pose proof analyze_greedy_suicidal_functions_visit_appends as Ha.
    pose proof (proj1 (for_each_outcome_ok _ _ Ha) Hok) as Hall.
    destruct (for_each_ok _ _ Ha Hall) as [_ Em].
    split.
    + rewrite Em, length_flat_map_total, count_total, total_map.
      apply total_ext_in. intros p Hp. specialize (Hall p Hp).
      rewrite analyze_greedy_suicidal_functions_visit_outcome in Hall.
      unfold greedy_function.
      destruct (self p) as [| | | | | | | | |fl fnm fargs fbl fbody| | | | | | |] eqn:E;
        try (unfold analyze_greedy_suicidal_functions_visit; now rewrite E).
      rewrite forallb_negb. fold (greedy_body fbody).
      destruct (named_or_not fnm) as [(nl & id & ->)|Hn].
      * unfold emitted.
        rewrite (analyze_greedy_suicidal_functions_visit_named
                   p fl nl id fargs fbl fbody [] E).
        now destruct (greedy_body fbody).
      * destruct (greedy_body fbody) eqn:Hb.
        -- destruct fnm as [| | | | | | | | | | |nl id| | | | |]; try discriminate.
           now elim (Hn nl id).
        -- unfold emitted, analyze_greedy_suicidal_functions_visit. rewrite E.
           rewrite greedy_flags_eq. fold (greedy_body fbody). now rewrite Hb.
    + pose proof (analyze_greedy_suicidal_functions_names code) as [_ Hn].
      unfold analyze_greedy_suicidal_functions in Hn.
      apply Forall_forall. intros f Hf.
      split; [exact (proj1 (Forall_forall _ _) Hn f Hf)|].
      rewrite Em in Hf. apply in_flat_map in Hf. destruct Hf as (p & Hp & Hf).
      unfold analyze_greedy_suicidal_functions_visit in Hf.
      destruct (self p) as [| | | | | | | | |fl fnm fargs fbl fbody| | | | | | |];
        try contradiction.
      destruct (greedy_flags fbody) as [ht hc].
      destruct (ht && negb hc); [|contradiction].
      destruct fnm as [| | | | | | | | | | |nl id| | | | |]; try contradiction.
      destruct Hf as [<-|[]]. reflexivity.
Qed.

Lemma analyze_greedy_suicidal_functions_needs_name_witness :
  let code :=
    Chunk None (Block None
      [Function (Some 1%Z) (Name (Some 1%Z) "sweep") [] (Some 1%Z)
         [Call (Some 2%Z) (Name (Some 2%Z) "Transfer") [Name (Some 2%Z) "all"]];
       Function (Some 4%Z)
         (Index (Some 4%Z) (Name (Some 4%Z) "guarded") (Name (Some 4%Z) "M")) [] (Some 4%Z)
         [If (Some 5%Z) (Name (Some 5%Z) "ok")
             (Block (Some 5%Z) [Call (Some 5%Z) (Name (Some 5%Z) "pay") []]) PyNone;
          Call (Some 6%Z) (Name (Some 6%Z) "send") []]]) in
  List.length (emitted (analyze_greedy_suicidal_functions code)) = 1.
Proof.
  intros code.
  destruct (analyze_greedy_suicidal_functions_needs_name code) as [_ H].
  destruct (H eq_refl) as [Hlen _].
  rewrite Hlen. reflexivity.
Defined.

(** ** When the scan ends normally *)

Lemma functions_named_spec (code : node) :
  functions_named code = true <->
  (forall p l nm args bl body,
     In p (walk (parse code)) -> self p = Function l nm args bl body ->
     exists nl id, nm = Name nl id).
Proof.
  unfold functions_named. rewrite forallb_forall. split.
  - intros H p l nm args bl body Hp E. specialize (H p Hp). rewrite E in H.
    destruct nm as [| | | | | | | | | | |nl id| | | | |]; try discriminate. eauto.
  - intros H p Hp.
    destruct (self p) as [| | | | | | | | |fl fnm fargs fbl fbody| | | | | | |] eqn:E;
      try reflexivity.
    now destruct (H p fl fnm fargs fbl fbody Hp E) as (nl & id & ->).
Qed.

Lemma rules_complete_named (code : node) :
  functions_named code = true ->
  completes (analyze_return code) /\
  completes (analyze_overflow_and_return code) /\
  completes (analyze_reentrancy code) /\
  completes (check_private_key_exposure code) /\
  completes (analyze_floating_pragma code) /\
  completes (analyze_denial_of_service code) /\
  completes (analyze_unchecked_external_calls code) /\
  completes (analyze_greedy_suicidal_functions code).
Proof.
  intros Hn.
  split; [apply completes_for_each, analyze_return_visit_completes|].
  split.
  { apply (named_rule analyze_overflow_and_return_visit
             (fun n => overflow_literals n + body_sum overflow_literals n
                       + returned_literals n) code Hn).
    - apply analyze_overflow_and_return_visit_appends.
    - apply analyze_overflow_and_return_visit_count. }
  split; [apply completes_for_each, analyze_reentrancy_visit_completes|].
  split; [apply completes_for_each, check_private_key_exposure_visit_completes|].
  split; [apply completes_for_each, analyze_floating_pragma_visit_completes|].
  split; [apply completes_for_each, analyze_denial_of_service_visit_completes|].
  split.
  { apply (named_rule analyze_unchecked_external_calls_visit unchecked_calls code Hn).
    - apply analyze_unchecked_external_calls_visit_appends.
    - apply analyze_unchecked_external_calls_visit_count. }
  apply (named_rule analyze_greedy_suicidal_functions_visit
           (fun n => bool_to_nat (greedy_function n)) code Hn).
  - apply analyze_greedy_suicidal_functions_visit_appends.
  - apply analyze_greedy_suicidal_functions_visit_count.
Qed.

Lemma scan_completes_named (code : node) :
  functions_named code = true -> completes (scan code).
Proof.
  intros Hn.
  destruct (rules_complete_named code Hn) as (C1 & C2 & C3 & C4 & C5 & C6 & C7 & C8).
  unfold scan. repeat (apply completes_bind; [assumption|intro]). assumption.
Qed.

(** The outcome of the scan. *)
Lemma scan_outcome (code : node) :
  outcome (scan code)
  = if functions_named code then Ok tt else Raise (AttributeError "id").
Proof.
  destruct (functions_named code) eqn:Hf.
  - apply (scan_completes_named code Hf).
  - unfold functions_named in Hf.
    assert (Hex : exists p, In p (walk (parse code)) /\ named_function (self p) = false).
    { induction (walk (parse code)) as [|q qs IH]; [discriminate|].
      simpl in Hf. destruct (named_function (self q)) eqn:Hq.
      - destruct (IH Hf) as (p & Hp & Hp'). exists p. split; [now right|assumption].
      - exists q. split; [now left|assumption]. }
    destruct Hex as (p & Hp & Hnp).
    destruct (self p) as [| | | | | | | | |fl fnm fargs fbl fbody| | | | | | |] eqn:E;
      try discriminate.
    assert (Hnm : forall nl id, fnm <> Name nl id).
    { intros nl id ->. discriminate. }
    pose proof (analyze_overflow_and_return_raises code p fl fnm fargs fbl fbody Hp E Hnm)
      as Ho.
    unfold scan.
    rewrite outcome_seq;
      [|apply analyze_return_completes
       |repeat (apply appends_bind; [|intro]);
        first [ apply analyze_overflow_and_return_names
              | apply analyze_reentrancy_names
              | apply check_private_key_exposure_names
              | apply analyze_floating_pragma_names
              | apply analyze_denial_of_service_names
              | apply analyze_unchecked_external_calls_names
              | apply analyze_greedy_suicidal_functions_names ]].
    now apply bind_raise; [apply analyze_overflow_and_return_appends|].
Qed.

(** X6.  The scan of a tree ends normally exactly when every Function node of
    the tree is named by a Name node; on any other tree (one dotted function
    name anywhere is enough) it ends with AttributeError. *)
Theorem scan_completes_iff_named (code : node) :
  (outcome (scan code) = Ok tt <->
   (forall p l nm args bl body,
      In p (walk (parse code)) -> self p = Function l nm args bl body ->
      exists nl id, nm = Name nl id)) /\
  (outcome (scan code) = Ok tt \/ outcome (scan code) = Raise (AttributeError "id")).
Proof.
  rewrite <- functions_named_spec, scan_outcome.
  destruct (functions_named code).
  - split; [tauto|now left].
  - split; [|now right]. split; intros; discriminate.
Qed.

Lemma scan_completes_iff_named_witness :
  outcome (scan (Chunk None (Block None
                   [Function (Some 1%Z) (Name (Some 1%Z) "f") [] (Some 1%Z) []])))
  = Ok tt.
Proof.
  apply (proj2 (proj1 (scan_completes_iff_named _))).
  intros p l nm args bl body Hp E. simpl in Hp.
  repeat (destruct Hp as [<-|Hp]; [try discriminate E|]); [|contradiction].
  injection E as _ <- _ _ _. eauto.
Defined.

(** X7.  A scan that ends normally has appended the findings of the eight
    rules one rule after the other, in the order [main] calls them: Missing
    Return, Integer Overflow/Underflow, Reentrancy, Private Key Exposure,
    Floating Pragma, Denial of Service, Unchecked External Calls,
    Greedy/Suicidal Functions; each stretch holds only findings with that
    rule's name, and what was in the list before stays in front. *)
Theorem scan_groups_findings_by_rule (code : node) (vs : list Finding) :
  outcome (scan code) = Ok tt ->
  scan code vs
  = (Ok tt,
     vs ++ emitted (analyze_return code)
        ++ emitted (analyze_overflow_and_return code)
        ++ emitted (analyze_reentrancy code)
        ++ emitted (check_private_key_exposure code)
        ++ emitted (analyze_floating_pragma code)
        ++ emitted (analyze_denial_of_service code)
        ++ emitted (analyze_unchecked_external_calls code)
        ++ emitted (analyze_greedy_suicidal_functions code)) /\
  Forall (fun f => name f = "Missing Return Statement") (emitted (analyze_return code)) /\
  Forall (fun f => name f = "Integer Overflow/Underflow")
         (emitted (analyze_overflow_and_return code)) /\
  Forall (fun f => name f = "Reentrancy") (emitted (analyze_reentrancy code)) /\
  Forall (fun f => name f = "Private Key Exposure")
         (emitted (check_private_key_exposure code)) /\
  Forall (fun f => name f = "Floating Pragma") (emitted (analyze_floating_pragma code)) /\
  Forall (fun f => name f = "Denial of Service")
         (emitted (analyze_denial_of_service code)) /\
  Forall (fun f => name f = "Unchecked External Calls")
         (emitted (analyze_unchecked_external_calls code)) /\
  Forall (fun f => name f = "Greedy/Suicidal Functions")
         (emitted (analyze_greedy_suicidal_functions code)).
Proof.
  intros Hok.
  assert (Hn : functions_named code = true).
  { rewrite scan_outcome in Hok. now destruct (functions_named code). }
  destruct (rules_complete_named code Hn) as (C1 & C2 & C3 & C4 & C5 & C6 & C7 & C8).
  split.
  - rewrite (scan_run_ok code vs Hok). do 2 f_equal. unfold scan.
    repeat (rewrite emitted_seq;
            [f_equal
            |assumption
            |repeat (apply appends_bind; [|intro]);
             match goal with H : completes ?m |- appends ?m => apply H end]).
  - repeat split;
      first [ apply analyze_return_names
            | apply analyze_overflow_and_return_names
            | apply analyze_reentrancy_names
            | apply check_private_key_exposure_names
            | apply analyze_floating_pragma_names
            | apply analyze_denial_of_service_names
            | apply analyze_unchecked_external_calls_names
            | apply analyze_greedy_suicidal_functions_names ].
Qed.

Lemma scan_groups_findings_by_rule_witness :
  let code :=
    Chunk None (Block None
      [Function (Some 1%Z) (Name (Some 1%Z) "pay_out") [] (Some 1%Z)
         [Call (Some 2%Z) (Name (Some 2%Z) "getfenv") [];
          Call (Some 3%Z) (Name (Some 3%Z) "transfer") []]]) in
  scan code []
  = (Ok tt, [missing_return_finding (Some 1%Z);
             floating_pragma_finding "getfenv" (Some 2%Z);
             greedy_finding "pay_out" (Some 1%Z)]).
Proof.
  intros code.
  destruct (scan_groups_findings_by_rule code [] eq_refl) as [H _].
  rewrite H. reflexivity.
Defined.

(** ** What a report can hold *)

Lemma scan_emits_only (Q : Finding -> Prop) (code : node) :
  (forall d l, Q (mkFinding "Missing Return Statement" d "missing_return" "low" l)) ->
  (forall d l, Q (mkFinding "Integer Overflow/Underflow" d "overflow_underflow" "high" l)) ->
  (forall d l, Q (mkFinding "Reentrancy" d "external_call" "high" l)) ->
  (forall d l, Q (mkFinding "Private Key Exposure" d "private_key_exposure" "high" l)) ->
  (forall d l, Q (mkFinding "Floating Pragma" d "floating_pragma" "low" l)) ->
  (forall d l, Q (mkFinding "Denial of Service" d "denial_of_service" "medium" l)) ->
  (forall d l, Q (mkFinding "Unchecked External Calls" d "unchecked_external_call"
                            "medium" l)) ->
  (forall d l, Q (mkFinding "Greedy/Suicidal Functions" d "greedy_suicidal_function"
                            "high" l)) ->
  emits_only Q (scan code).
Proof.
  intros Q1 Q2 Q3 Q4 Q5 Q6 Q7 Q8.
  assert (Hnode : forall p, emits_only Q (analyze_overflow_in_node p)).
  { intro p. unfold analyze_overflow_in_node.
    repeat first
      [ apply emits_only_ret | apply emits_only_add; apply Q2
      | apply emits_only_when | apply emits_only_for_each; intro
      | apply emits_only_bind; [|intro]
      | match goal with
        | |- emits_only _ (match ?x with _ => _ end) => destruct x
        end ]. }
  unfold scan.
  repeat (apply emits_only_bind; [|intro]).
  - unfold analyze_return, analyze_return_visit.
    repeat first
      [ apply emits_only_ret | apply emits_only_add; apply Q1
      | apply emits_only_when | apply emits_only_for_each; intro
      | match goal with
        | |- emits_only _ (match ?x with _ => _ end) => destruct x
        end ].
  - unfold analyze_overflow_and_return, analyze_overflow_and_return_visit.
    apply emits_only_for_each. intro p.
    apply emits_only_bind; [apply Hnode|intro].
    apply emits_only_bind; [|intro].
    + unfold analyze_function_body.
      destruct (self p); try apply emits_only_ret.
      apply emits_only_for_each, Hnode.
    + unfold analyze_another_example.
      repeat first
        [ apply emits_only_ret | apply emits_only_raise | apply emits_only_add; apply Q2
        | apply emits_only_attr_id
        | apply emits_only_when | apply emits_only_for_each; intro
        | apply emits_only_bind; [|intro]
        | match goal with
          | |- emits_only _ (match ?x with _ => _ end) => destruct x
          end ].
  - unfold analyze_reentrancy, analyze_reentrancy_visit.
    repeat first
      [ apply emits_only_ret | apply emits_only_add; apply Q3
      | apply emits_only_when | apply emits_only_for_each; intro
      | match goal with
        | |- emits_only _ (match ?x with _ => _ end) => destruct x
        end ].
  - unfold check_private_key_exposure, check_private_key_exposure_visit.
    repeat first
      [ apply emits_only_ret | apply emits_only_add; apply Q4
      | apply emits_only_when | apply emits_only_for_each; intro
      | match goal with
        | |- emits_only _ (match ?x with _ => _ end) => destruct x
        end ].
  - unfold analyze_floating_pragma, analyze_floating_pragma_visit.
    repeat first
      [ apply emits_only_ret | apply emits_only_add; apply Q5
      | apply emits_only_when | apply emits_only_for_each; intro
      | match goal with
        | |- emits_only _ (match ?x with _ => _ end) => destruct x
        end ].
  - unfold analyze_denial_of_service, analyze_denial_of_service_visit.
    repeat first
      [ apply emits_only_ret | apply emits_only_add; apply Q6
      | apply emits_only_when | apply emits_only_for_each; intro
      | match goal with
        | |- emits_only _ (match ?x with _ => _ end) => destruct x
        end ].
  - unfold analyze_unchecked_external_calls, analyze_unchecked_external_calls_visit.
    repeat first
      [ apply emits_only_ret | apply emits_only_raise | apply emits_only_add; apply Q7
      | apply emits_only_attr_id
      | apply emits_only_when | apply emits_only_for_each; intro
      | apply emits_only_bind; [|intro]
      | match goal with
        | |- emits_only _ (match ?x with _ => _ end) => destruct x
        end ].
  - unfold analyze_greedy_suicidal_functions, analyze_greedy_suicidal_functions_visit.
    repeat first
      [ apply emits_only_ret | apply emits_only_raise | apply emits_only_add; apply Q8
      | apply emits_only_attr_id
      | apply emits_only_when | apply emits_only_for_each; intro
      | apply emits_only_bind; [|intro]
      | match goal with
        | |- emits_only _ (match ?x with _ => _ end) => destruct x
        end ].
Qed.

(** X8.  Whatever the tree, and also when the scan is cut short by an
    exception, every finding the scan appends carries one of eight fixed
    triples of name, pattern and severity, one per rule; the description and
    the line are the only fields that vary. *)
Theorem scan_findings_table (code : node) (f : Finding) :
  In f (emitted (scan code)) ->
  In (name f, pattern f, severity f)
     [("Missing Return Statement", "missing_return", "low");
      ("Integer Overflow/Underflow", "overflow_underflow", "high");
      ("Reentrancy", "external_call", "high");
      ("Private Key Exposure", "private_key_exposure", "high");
      ("Floating Pragma", "floating_pragma", "low");
      ("Denial of Service", "denial_of_service", "medium");
      ("Unchecked External Calls", "unchecked_external_call", "medium");
      ("Greedy/Suicidal Functions", "greedy_suicidal_function", "high")].
Proof.
  intros Hin.
  pose proof (scan_emits_only
                (fun f => In (name f, pattern f, severity f)
                   [("Missing Return Statement", "missing_return", "low");
                    ("Integer Overflow/Underflow", "overflow_underflow", "high");
                    ("Reentrancy", "external_call", "high");
                    ("Private Key Exposure", "private_key_exposure", "high");
                    ("Floating Pragma", "floating_pragma", "low");
                    ("Denial of Service", "denial_of_service", "medium");
                    ("Unchecked External Calls", "unchecked_external_call", "medium");
                    ("Greedy/Suicidal Functions", "greedy_suicidal_function", "high")])
                code) as [_ H]; try (intros; simpl; tauto).
  exact (proj1 (Forall_forall _ _) H f Hin).
Qed.

Lemma scan_findings_table_witness :
  In ("Missing Return Statement", "missing_return", "low")
     [("Missing Return Statement", "missing_return", "low");
      ("Integer Overflow/Underflow", "overflow_underflow", "high");
      ("Reentrancy", "external_call", "high");
      ("Private Key Exposure", "private_key_exposure", "high");
      ("Floating Pragma", "floating_pragma", "low");
      ("Denial of Service", "denial_of_service", "medium");
      ("Unchecked External Calls", "unchecked_external_call", "medium");
      ("Greedy/Suicidal Functions", "greedy_suicidal_function", "high")].
Proof.
  apply (scan_findings_table
           (Chunk None (Block None
              [Function (Some 1%Z) (Name (Some 1%Z) "f") [] (Some 1%Z) []]))
           (missing_return_finding (Some 1%Z))).
  vm_compute. tauto.
Defined.

(** X9.  [print_vulnerabilities] never falls back to the default colour for
    what a scan has appended: the text of every such finding starts with red
    (Integer Overflow/Underflow, Reentrancy, Private Key Exposure,
    Greedy/Suicidal Functions), yellow (Denial of Service, Unchecked External
    Calls) or cyan (Missing Return Statement, Floating Pragma), and one text
    is written per finding, in list order. *)
Theorem print_vulnerabilities_colours (code : node) :
  List.length (print_vulnerabilities (emitted (scan code)))
  = List.length (emitted (scan code)) /\
  forall f,
    In f (emitted (scan code)) ->
    vuln_color f <> (ESC ++ "[0m")%string /\
    In (vuln_text f) (print_vulnerabilities (emitted (scan code))) /\
    (exists rest,
       vuln_text f = (vuln_color f ++ "Name: " ++ name f ++ rest)%string) /\
    (vuln_color f = (ESC ++ "[91m")%string /\
     In (name f) ["Integer Overflow/Underflow"; "Reentrancy"; "Private Key Exposure";
                  "Greedy/Suicidal Functions"]
     \/
     vuln_color f = (ESC ++ "[93m")%string /\
     In (name f) ["Denial of Service"; "Unchecked External Calls"]
     \/
     vuln_color f = (ESC ++ "[96m")%string /\
     In (name f) ["Missing Return Statement"; "Floating Pragma"]).
Proof.
  split; [apply length_map|].
  intros f Hin.
  pose proof (scan_emits_only
                (fun f =>
                   vuln_color f <> (ESC ++ "[0m")%string /\
                   (vuln_color f = (ESC ++ "[91m")%string /\
                    In (name f) ["Integer Overflow/Underflow"; "Reentrancy";
                                 "Private Key Exposure"; "Greedy/Suicidal Functions"]
                    \/
                    vuln_color f = (ESC ++ "[93m")%string /\
                    In (name f) ["Denial of Service"; "Unchecked External Calls"]
                    \/
                    vuln_color f = (ESC ++ "[96m")%string /\
                    In (name f) ["Missing Return Statement"; "Floating Pragma"]))
                code) as [_ H];
    try (intros; split; [discriminate|simpl; tauto]).
  destruct (proj1 (Forall_forall _ _) H f Hin) as [Hreset Hcol].
  split; [assumption|]. split; [now apply in_map|].
  split; [|assumption].
  eexists. unfold vuln_text. reflexivity.
Qed.

Lemma print_vulnerabilities_colours_witness :
  vuln_color (missing_return_finding (Some 1%Z)) <> (ESC ++ "[0m")%string.
Proof.
  apply (proj2 (print_vulnerabilities_colours
                  (Chunk None (Block None
                     [Function (Some 1%Z) (Name (Some 1%Z) "f") [] (Some 1%Z) []])))
               (missing_return_finding (Some 1%Z))).
  vm_compute. tauto.
Defined.

(** ** Sessions over several files *)

Lemma running_app (vs : list Finding) (outs outs' : list (list Finding)) :
  running vs (outs ++ outs')
  = running vs outs ++ running (vs ++ List.concat outs) outs'.
Proof.
  revert vs. induction outs as [|o outs IH]; intros vs; simpl.
  - now rewrite app_nil_r.
  - rewrite IH. now rewrite app_assoc.
Qed.

Lemma running_extends (vs : list Finding) (outs : list (list Finding)) (r : list Finding) :
  In r (running vs outs) -> exists added, r = vs ++ added.
Proof.
  revert vs. induction outs as [|o outs IH]; intros vs; simpl; [contradiction|].
  intros [<-|Hin]; [eauto|].
  destruct (IH _ Hin) as (added & ->). exists (o ++ added). now rewrite app_assoc.
Qed.

Lemma main_ok (files : list node) (vs : list Finding) :
  (forall code, In code files -> outcome (scan code) = Ok tt) ->
  main files vs
  = (Ok (running vs (map (fun code => emitted (scan code)) files)),
     vs ++ List.concat (map (fun code => emitted (scan code)) files)).
Proof.
  revert vs. induction files as [|code files IH]; intros vs H.
  - simpl. unfold ret. now rewrite app_nil_r.
  - cbn [main]. unfold scan_and_report, report, bind at 1 2.
    rewrite (scan_run_ok code vs (H code (in_eq _ _))).
    unfold bind at 1. rewrite IH by (intros c Hc; apply H; now right).
    unfold ret. cbn [map running List.concat]. now rewrite app_assoc.
Qed.

(** X10.  Over any number of files whose scans end normally, the list is
    never cleared: the report of each turn of [main] is the list as it was at
    the start followed by the findings of every file scanned so far, in
    order; so the findings of a file are in the report of that file and in
    the report of every file scanned after it. *)
Theorem main_reports_accumulate (files : list node) (vs : list Finding) :
  (forall code, In code files -> outcome (scan code) = Ok tt) ->
  main files vs
  = (Ok (running vs (map (fun code => emitted (scan code)) files)),
     vs ++ List.concat (map (fun code => emitted (scan code)) files)) /\
  (forall pre code post f r,
     files = pre ++ code :: post ->
     In f (emitted (scan code)) ->
     In r (skipn (List.length pre)
                 (running vs (map (fun code => emitted (scan code)) files))) ->
     In f r).
Proof.
  intros H. split; [now apply main_ok|].
  intros pre code post f r -> Hf Hr.
  rewrite map_app, running_app in Hr. cbn [map running] in Hr.
  rewrite skipn_app in Hr.
  assert (Hlen : forall w outs, List.length (running w outs) = List.length outs).
  { intros w outs. revert w. induction outs as [|o outs IH]; intros w; simpl; auto. }
  rewrite Hlen, length_map, Nat.sub_diag, skipn_all2 in Hr
    by (rewrite Hlen, length_map; lia).
  cbn [skipn app] in Hr.
  destruct Hr as [<-|Hr].
  - apply in_or_app. now right.
  - apply running_extends in Hr. destruct Hr as (added & ->).
    apply in_or_app. left. apply in_or_app. now right.
Qed.

Lemma main_reports_accumulate_witness :
  let a := Chunk None (Block None
             [Function (Some 1%Z) (Name (Some 1%Z) "f") [] (Some 1%Z) []]) in
  let b := Chunk None (Block None
             [Call (Some 9%Z) (Name (Some 9%Z) "setfenv") []]) in
  main [a; b] []
  = (Ok [[missing_return_finding (Some 1%Z)];
         [missing_return_finding (Some 1%Z); floating_pragma_finding "setfenv" (Some 9%Z)]],
     [missing_return_finding (Some 1%Z); floating_pragma_finding "setfenv" (Some 9%Z)]).
Proof.
  intros a b.
  destruct (main_reports_accumulate [a; b] []) as [H _].
  - intros code [<-|[<-|[]]]; reflexivity.
  - rewrite H. reflexivity.
Defined.

(** ** The loop with its prompt *)

Section InteractiveFacts.

Variable strip : string -> string.
Variable files : string -> file.

(** X11.  Once a typed line, stripped and lower-cased, is exit, nothing typed
    after it is read: the session is the same as if the input had stopped
    there, and it does not end on a missing input. *)
Theorem main_interactive_stops_at_exit
        (pre : list string) (typed : string) (post : list string) (vs : list Finding) :
  lower (strip typed) = "exit" ->
  main_interactive strip files (pre ++ typed :: post) vs
  = main_interactive strip files (pre ++ [typed]) vs /\
  snd (fst (main_interactive strip files (pre ++ typed :: post) vs)) <> EndOfInput.
Proof.
  intros He. revert vs. induction pre as [|x pre IH]; intros vs.
  - cbn [app main_interactive]. rewrite He. cbn. split; [reflexivity|discriminate].
  - cbn [app main_interactive].
    destruct (lower (strip x) =? "exit"); [split; [reflexivity|discriminate]|].
    destruct (files (strip x)) as [| |code].
    + destruct (IH vs) as [E N]. rewrite E.
      destruct (main_interactive strip files (pre ++ [typed]) vs) as [[evs e] vs'].
      split; [reflexivity|]. rewrite E in N. exact N.
    + split; [reflexivity|discriminate].
    + destruct (scan code vs) as [[u|e] vs1]; [|split; [reflexivity|discriminate]].
      destruct (IH vs1) as [E N]. rewrite E.
      destruct (main_interactive strip files (pre ++ [typed]) vs1) as [[evs e] vs'].
      split; [reflexivity|]. rewrite E in N. exact N.
Qed.

(** X12.  During a session nothing is ever taken out of the list: every list
    written to report.json extends the one written before it (the first one
    extends the list the session started from), the list at the end extends
    the last one written, and what is printed at a turn is the printout of
    the whole list written at that turn. *)
Theorem main_interactive_never_forgets
        (inputs : list string) (vs : list Finding)
        (events : list event) (e : ending) (vs' : list Finding) :
  main_interactive strip files inputs vs = (events, e, vs') ->
  grows vs (saved_lists events ++ [vs']) /\
  Forall (fun ev => match ev with
                    | FileNotFound => True
                    | Report printed saved => printed = print_vulnerabilities saved
                    end) events.
Proof.
  revert vs events e vs'. induction inputs as [|x inputs IH]; intros vs events e vs' H.
  - injection H as <- <- <-. cbn. split; [|constructor].
    split; [exists []; now rewrite app_nil_r|exact I].
  - cbn [main_interactive] in H.
    assert (Hsame : grows vs [vs]).
    { split; [exists []; now rewrite app_nil_r|exact I]. }
    destruct (lower (strip x) =? "exit").
    { injection H as <- <- <-. split; [exact Hsame|constructor]. }
    destruct (files (strip x)) as [| |code].
    + destruct (main_interactive strip files inputs vs) as [[evs e1] vs1] eqn:Hm.
      injection H as <- <- <-.
      destruct (IH _ _ _ _ Hm) as [G F]. split; [exact G|now constructor].
    + injection H as <- <- <-. split; [exact Hsame|constructor].
    + pose proof (scan_appends code vs) as Hs.
      destruct (scan code vs) as [[u|e1] vs1] eqn:Hscan.
      * destruct (main_interactive strip files inputs vs1) as [[evs e2] vs2] eqn:Hm.
        injection H as <- <- <-.
        destruct (IH _ _ _ _ Hm) as [G F].
        split; [|now constructor].
        cbn [saved_lists app grows]. split; [|exact G].
        injection Hs as _ ->. eauto.
      * injection H as <- <- <-. cbn. split; [|constructor].
        split; [|exact I]. injection Hs as _ ->. eauto.
Qed.

(** X13.  When every line typed before exit is the path of a file that parses,
    the session is the loop of [main] over the trees of those files: the same
    reports, each with its printout, and the same list at the end; and it
    crashes with the exception with which that loop ends. *)
Theorem main_interactive_runs_main
        (lines : list string) (codes : list node) (typed : string)
        (post : list string) (vs : list Finding) :
  Forall2 (fun line code =>
             lower (strip line) <> "exit" /\ files (strip line) = Parsed code)
          lines codes ->
  lower (strip typed) = "exit" ->
  match main codes vs with
  | (Ok reports, vs') =>
      main_interactive strip files (lines ++ typed :: post) vs
      = (map (fun r => Report (print_vulnerabilities r) r) reports, Exited, vs')
  | (Raise e, vs') =>
      exists events,
        main_interactive strip files (lines ++ typed :: post) vs
        = (events, Crashed e, vs')
  end.
Proof.
  intros HF He. revert vs. induction HF as [|line code lines codes [Hne Hf] HF IH];
    intros vs.
  - cbn [app main_interactive main]. rewrite He. reflexivity.
  - cbn [app main_interactive main].
    apply String.eqb_neq in Hne. rewrite Hne, Hf.
    unfold scan_and_report, report, bind at 1 2.
    destruct (scan code vs) as [[u|e] vs1]; [|now exists []].
    unfold bind at 1. specialize (IH vs1).
    destruct (main codes vs1) as [[reports|e] vs2].
    + rewrite IH. reflexivity.
    + destruct IH as (events & ->). eauto.
Qed.

End InteractiveFacts.

Lemma main_interactive_stops_at_exit_witness :
  main_interactive (fun s => s) (fun _ => Missing) ["a.lua"; "EXIT"; "b.lua"] []
  = ([FileNotFound], Exited, []).
Proof.
  destruct (main_interactive_stops_at_exit (fun s => s) (fun _ => Missing)
              ["a.lua"] "EXIT" ["b.lua"] [] eq_refl) as [E _].
  cbn [app] in E. rewrite E. reflexivity.
Defined.

Lemma main_interactive_never_forgets_witness :
  let a := Chunk None (Block None
             [Function (Some 1%Z) (Name (Some 1%Z) "f") [] (Some 1%Z) []]) in
  grows [] ([[missing_return_finding (Some 1%Z)];
             [missing_return_finding (Some 1%Z); missing_return_finding (Some 1%Z)]]
            ++ [[missing_return_finding (Some 1%Z); missing_return_finding (Some 1%Z)]]).
Proof.
  intros a.
  refine (proj1 (main_interactive_never_forgets (fun s => s) (fun _ => Parsed a)
                   ["a.lua"; "a.lua"; "exit"] []
                   [Report _ [missing_return_finding (Some 1%Z)];
                    Report _ [missing_return_finding (Some 1%Z);
                              missing_return_finding (Some 1%Z)]]
                   Exited _ _)).
  reflexivity.
Defined.

Lemma main_interactive_runs_main_witness :
  let a := Chunk None (Block None
             [Function (Some 1%Z) (Name (Some 1%Z) "f") [] (Some 1%Z) []]) in
  main_interactive (fun s => s) (fun _ => Parsed a) ["a.lua"; "exit"; "b.lua"] []
  = ([Report (print_vulnerabilities [missing_return_finding (Some 1%Z)])
             [missing_return_finding (Some 1%Z)]],
     Exited, [missing_return_finding (Some 1%Z)]).
Proof.
  intros a.
  pose proof (main_interactive_runs_main (fun s => s) (fun _ => Parsed a)
                ["a.lua"] [a] "exit" ["b.lua"] []) as H.
  cbn [app] in H. rewrite H.
  - reflexivity.
  - constructor; [|constructor]. split; [discriminate|reflexivity].
  - reflexivity.
Defined.

(** ** Return values *)

Lemma analyze_another_example_named
      (p : pyobj) (l nl : option Z) (id : string) (args : list node)
      (bl : option Z) (body : list node) (vs : list Finding) :
  self p = Function l (Name nl id) args bl body ->
  analyze_another_example p vs
  = (Ok tt,
     vs ++ if id =? "another_example"
           then flat_map (fun s => match s with
                                   | Return _ values =>
                                       flat_map (returned_literal p bl body id s) values
                                   | _ => []
                                   end) body
           else []).
Proof.
  intros E. unfold analyze_another_example. rewrite E.
  change (attr_id (Name nl id)) with (@ret string id).
  match goal with |- bind (ret id) ?k vs = _ => change (bind (ret id) k vs) with (k id vs) end.
  cbv beta.
  destruct (id =? "another_example"); [|cbn; unfold ret; now rewrite app_nil_r].
  cbn [when].
  match goal with |- for_each body ?visit vs = _ =>
    assert (C : forall s, completes (visit s)) by (intro s; completer);
    rewrite (completes_run _ vs (completes_for_each _ _ C));
    rewrite (emitted_for_each _ _ C)
  end.
  do 2 f_equal. apply flat_map_ext. intro s.
  destruct s as [| | | | | | |rl values| | | | | | | | |]; try reflexivity.
  rewrite emitted_for_each by (intro; completer).
  apply flat_map_ext. intro v. rewrite emitted_when. unfold returned_literal.
  now destruct (overflowing_number v).
Qed.

(** X14.  Return values are checked for overflow only in a function named
    exactly another_example, and only in the Return statements that are
    direct statements of its body: there each value that is a Number with
    [n >= 2147483647] or [n <= -2147483648] gives one high-severity finding
    that quotes the function name.  In a function of any other name the
    check appends nothing, so that [function g() return 2147483647 end] gets
    no overflow finding at all, and [function another_example() return
    2147483647 end] gets exactly one. *)
Theorem analyze_another_example_only_by_name :
  (forall p l nl id args bl body vs,
     self p = Function l (Name nl id) args bl body ->
     (id <> "another_example" -> analyze_another_example p vs = (Ok tt, vs)) /\
     (id = "another_example" ->
      exists per_value : node -> node -> list Finding,
        analyze_another_example p vs
        = (Ok tt,
           vs ++ flat_map (fun s => match s with
                                    | Return _ values => flat_map (per_value s) values
                                    | _ => []
                                    end) body) /\
        (forall s vl n,
           (n >= 2147483647 \/ n <= -2147483648)%Z ->
           per_value s (Number vl n)
           = [mkFinding "Integer Overflow/Underflow"
                "Potential integer overflow/underflow detected in return statement of function 'another_example'."
                "overflow_underflow" "high"
                (get_line_number
                   (child (child (body_of p bl body) s) (Number vl n)))]) /\
        (forall s vl n,
           (-2147483648 < n < 2147483647)%Z -> per_value s (Number vl n) = []) /\
        (forall s v, (forall vl n, v <> Number vl n) -> per_value s v = []))) /\
  (forall cl bl fl nl id fbl rl vl n,
     (n >= 2147483647 \/ n <= -2147483648)%Z ->
     (id <> "another_example" ->
      emitted (analyze_overflow_and_return
                 (Chunk cl (Block bl
                    [Function fl (Name nl id) [] fbl [Return rl [Number vl n]]])))
      = []) /\
     (exists f,
        emitted (analyze_overflow_and_return
                   (Chunk cl (Block bl
                      [Function fl (Name nl "another_example") [] fbl
                         [Return rl [Number vl n]]])))
        = [f] /\ name f = "Integer Overflow/Underflow" /\ severity f = "high")).
Proof.
  split.
  - intros p l nl id args bl body vs E.
    rewrite (analyze_another_example_named p l nl id args bl body vs E).
    split.
    + intros Hne. apply String.eqb_neq in Hne. rewrite Hne. now rewrite app_nil_r.
    + intros ->. exists (returned_literal p bl body "another_example").
      split; [reflexivity|]. unfold returned_literal. repeat split.
      * intros s vl n H. apply is_potential_overflow_true in H. simpl. now rewrite H.
      * intros s vl n H. apply is_potential_overflow_false in H. simpl. now rewrite H.
      * intros s v H.
        destruct v as [| | | | | | | | | |vl n| | | | | |]; try reflexivity.
        now elim (H vl n).
  - intros cl bl fl nl id fbl rl vl n Hn.
    apply is_potential_overflow_true in Hn. split.
    + intros Hne. apply String.eqb_neq in Hne.
      unfold emitted, analyze_overflow_and_return.
      cbv -[String.eqb String.append get_line_number is_potential_overflow].
      now rewrite Hne.
    + eexists. split; [|split].
      * unfold emitted, analyze_overflow_and_return.
        cbv -[String.append get_line_number is_potential_overflow].
        rewrite Hn. reflexivity.
      * reflexivity.
      * reflexivity.
Qed.

Lemma analyze_another_example_only_by_name_witness :
  emitted (analyze_overflow_and_return
             (Chunk None (Block None
                [Function (Some 1%Z) (Name (Some 1%Z) "g") [] (Some 1%Z)
                   [Return (Some 2%Z) [Number (Some 2%Z) 2147483647%Z]]])))
  = [].
Proof.
  refine (proj1 (proj2 analyze_another_example_only_by_name
                   None None (Some 1%Z) (Some 1%Z) "g" (Some 1%Z) (Some 2%Z)
                   (Some 2%Z) 2147483647%Z _) _).
  - left. lia.
  - discriminate.
Defined.
